(** * InkyPi image utilities: a shallow embedding of [src/utils/image_utils.py]

    The Python functions are translated one by one.  Python exceptions are
    values of [exn]; a function that may raise returns a [result].  Pillow
    images are grids of pixels, each pixel a list of bands. *)

From Stdlib Require Import ZArith List Bool Lia Ascii String.
From Stdlib Require Import Floats.SpecFloat.
From stdpp Require Import gmap strings list pretty.

Local Open Scope Z_scope.

(** ** Python: exceptions and results *)

Module Py.

Inductive exn : Type :=
| UnboundLocalError (name : string)
| ZeroDivisionError
| OverflowError
| ValueError (msg : string)
| OSError (msg : string)
| FileNotFoundError (path : string)
| FileExistsError
| UnicodeDecodeError
| UnicodeEncodeError
| UnidentifiedImageError
| RequestException (msg : string).

Inductive result (A : Type) : Type :=
| Val (a : A)
| Raise (e : exn).
Arguments Val {A} a.
Arguments Raise {A} e.

Definition rbind {A B} (m : result A) (k : A -> result B) : result B :=
  match m with
  | Val a => k a
  | Raise e => Raise e
  end.

(** Reading a local variable: a name that was never assigned raises
    [UnboundLocalError]. *)
Definition read_local {A} (name : string) (v : option A) : result A :=
  match v with
  | Some a => Val a
  | None => Raise (UnboundLocalError name)
  end.

(** [str(e)] *)
Definition exn_str (e : exn) : string :=
  match e with
  | UnboundLocalError name =>
      "local variable '" +:+ name +:+ "' referenced before assignment"
  | ZeroDivisionError => "division by zero"
  | OverflowError => "Result too large"
  | ValueError msg => msg
  | OSError msg => msg
  | FileNotFoundError path => "No such file or directory: '" +:+ path +:+ "'"
  | FileExistsError => "No usable temporary file name found"
  | UnicodeDecodeError => "'utf-8' codec can't decode bytes"
  | UnicodeEncodeError => "'utf-8' codec can't encode characters"
  | UnidentifiedImageError => "cannot identify image file"
  | RequestException msg => msg
  end.

(** *** Statements: state, early [return], exceptions

    A block of statements running on a state [S] in a function returning
    [R] completes normally, by a [return], or by raising. *)
Inductive completion (R A : Type) : Type :=
| Normal (a : A)
| Return (r : R)
| Throw (e : exn).
Arguments Normal {R A} a.
Arguments Return {R A} r.
Arguments Throw {R A} e.

Definition M (S R A : Type) : Type := S -> completion R A * S.

Definition ret {S R A} (a : A) : M S R A := fun s => (Normal a, s).

Definition bind {S R A B} (m : M S R A) (k : A -> M S R B) : M S R B :=
  fun s =>
    match m s with
    | (Normal a, s') => k a s'
    | (Return r, s') => (Return r, s')
    | (Throw e, s') => (Throw e, s')
    end.

(** [return r] *)
Definition return_ {S R A} (r : R) : M S R A := fun s => (Return r, s).

(** The value or the exception of an expression. *)
Definition eval {S R A} (r : result A) : M S R A :=
  fun s => match r with
           | Val a => (Normal a, s)
           | Raise e => (Throw e, s)
           end.

(** [try: body  except Exception as e: handler e] *)
Definition try_except {S R A} (body : M S R A) (handler : exn -> M S R A)
    : M S R A :=
  fun s =>
    match body s with
    | (Throw e, s') => handler e s'
    | other => other
    end.

(** [if c: body] *)
Definition when {S R} (c : bool) (body : M S R unit) : M S R unit :=
  if c then body else ret tt.

(** A function body with its locals [l0], called in the world [w]: falling
    off the end returns [dflt]. *)
Definition call {W Loc R} (l0 : Loc) (dflt : R) (body : M (W * Loc) R unit)
    (w : W) : result R * W :=
  match body (w, l0) with
  | (Normal _, (w', _)) => (Val dflt, w')
  | (Return r, (w', _)) => (Val r, w')
  | (Throw e, (w', _)) => (Raise e, w')
  end.

(** An operation on the world, run from a function with locals. *)
Definition on_world {W Loc R A} (op : W -> result A * W) : M (W * Loc) R A :=
  fun s =>
    match op (fst s) with
    | (Val a, w') => (Normal a, (w', snd s))
    | (Raise e, w') => (Throw e, (w', snd s))
    end.

Definition get_local {W Loc R} : M (W * Loc) R Loc :=
  fun s => (Normal (snd s), s).
Definition set_local {W Loc R} (f : Loc -> Loc) : M (W * Loc) R unit :=
  fun s => (Normal tt, (fst s, f (snd s))).

End Py.
Export Py.

Notation "'let!' x ':=' m 'in' k" := (rbind m (fun x => k))
  (at level 10, x name, m at level 100, k at level 200).
Notation "'let!' ' p ':=' m 'in' k" := (rbind m (fun p => k))
  (at level 10, p pattern, m at level 100, k at level 200).

Notation "'let*' x ':=' m 'in' k" := (bind m (fun x => k))
  (at level 10, x name, m at level 100, k at level 200).
Notation "'exec' m 'in' k" := (bind m (fun _ => k))
  (at level 10, m at level 100, k at level 200).

(** ** Python floats: IEEE 754 binary64, rounding to nearest even *)

Module Float64.

Definition prec : Z := 53.
Definition emax : Z := 1024.

Definition float : Type := spec_float.

(** The literal [1.0]. *)
Definition one : float := S754_finite false 4503599627370496 (-52).

(** Conversion of an [int] operand of a float operation. *)
Definition of_int (n : Z) : result float :=
  match binary_normalize prec emax n 0 false with
  | S754_infinity _ => Raise OverflowError
  | f => Val f
  end.

(** [a / b] on two [int]s: the correctly rounded quotient. *)
Definition int_truediv (a b : Z) : result float :=
  if b =? 0 then Raise ZeroDivisionError
  else if a =? 0 then Val (S754_zero (b <? 0))
  else
    let '(q, e, l) := SFdiv_core_binary prec emax (Z.abs a) 0 (Z.abs b) 0 in
    match binary_round_aux prec emax (xorb (a <? 0) (b <? 0)) q e l with
    | S754_infinity _ => Raise OverflowError
    | f => Val f
    end.

Definition is_zero (f : float) : bool :=
  match f with S754_zero _ => true | _ => false end.

(** [x / y] on two floats. *)
Definition truediv (x y : float) : result float :=
  if is_zero y then Raise ZeroDivisionError
  else Val (SFdiv prec emax x y).

(** [x * y] on two floats: overflow gives an infinity, not an error. *)
Definition mul (x y : float) : float := SFmul prec emax x y.

(** [x > y] *)
Definition gt (x y : float) : bool := SFltb y x.

(** [x == y] *)
Definition eqb (x y : float) : bool := SFeqb x y.

(** [int(x)]: truncation towards zero. *)
Definition to_int (x : float) : result Z :=
  match x with
  | S754_zero _ => Val 0
  | S754_infinity _ => Raise OverflowError
  | S754_nan => Raise (ValueError "cannot convert float NaN to integer")
  | S754_finite s m e =>
      let v := if 0 <=? e then Z.pos m * 2 ^ e
               else Z.pos m / 2 ^ (- e) in
      Val (if s then - v else v)
  end.

(** A positive normal number: a mantissa of 53 digits, the magnitude
    [53 + e] between [lo] and [hi]. *)
Definition normal_pos (lo hi : Z) (f : float) : Prop :=
  exists m e, f = S754_finite false m e /\
              Z.pos (digits2_pos m) = 53 /\ lo <= 53 + e <= hi.

End Float64.

(** ** hashlib: SHA-256 (FIPS 180-4) on 32-bit words *)

Module SHA256.

Definition add32 (x y : Z) : Z := (x + y) mod 2 ^ 32.
Definition rotr (n x : Z) : Z :=
  Z.lor (Z.shiftr x n) (Z.shiftl x (32 - n) mod 2 ^ 32).
Definition not32 (x : Z) : Z := Z.lxor x 0xffffffff.

Definition Ch (x y z : Z) : Z :=
  Z.lxor (Z.land x y) (Z.land (not32 x) z).
Definition Maj (x y z : Z) : Z :=
  Z.lxor (Z.lxor (Z.land x y) (Z.land x z)) (Z.land y z).
Definition Sigma0 (x : Z) : Z :=
  Z.lxor (Z.lxor (rotr 2 x) (rotr 13 x)) (rotr 22 x).
Definition Sigma1 (x : Z) : Z :=
  Z.lxor (Z.lxor (rotr 6 x) (rotr 11 x)) (rotr 25 x).
Definition sigma0 (x : Z) : Z :=
  Z.lxor (Z.lxor (rotr 7 x) (rotr 18 x)) (Z.shiftr x 3).
Definition sigma1 (x : Z) : Z :=
  Z.lxor (Z.lxor (rotr 17 x) (rotr 19 x)) (Z.shiftr x 10).

(** The constants are defined as the standard defines them: the first 32
    bits of the fractional parts of the cube roots (round constants) and of
    the square roots (initial hash value) of the first primes. *)
Definition is_prime (n : Z) : bool :=
  (1 <? n) && forallb (fun d => negb (n mod d =? 0)) (seqZ 2 (n - 2)).

Definition first_primes (k : nat) : list Z :=
  take k (List.filter is_prime (seqZ 2 400)).

(** The integer cube root of [n], found bit by bit below [2 ^ bits]. *)
Fixpoint icbrt (bits : nat) (n r : Z) : Z :=
  match bits with
  | O => r
  | S b =>
      let c := r + 2 ^ Z.of_nat b in
      icbrt b n (if c * c * c <=? n then c else r)
  end.

Definition K256 : list Z :=
  Eval vm_compute in
    map (fun p => icbrt 40 (p * 2 ^ 96) 0 mod 2 ^ 32) (first_primes 64).

(** The hash value: eight words. *)
Definition state : Type := (Z * Z * Z * Z * Z * Z * Z * Z)%type.

Definition H0 : state :=
  Eval vm_compute in
    let h i := Z.sqrt (nth i (first_primes 8) 0 * 2 ^ 64) mod 2 ^ 32 in
    (h 0%nat, h 1%nat, h 2%nat, h 3%nat, h 4%nat, h 5%nat, h 6%nat, h 7%nat).

Definition byte_to_Z (b : Byte.byte) : Z := Z.of_N (Byte.to_N b).
Definition byte_of_Z (z : Z) : Byte.byte :=
  default Byte.x00 (Byte.of_N (Z.to_N (z mod 256))).

(** Big-endian bytes of a word of [n] bytes. *)
Fixpoint be_bytes (n : nat) (x : Z) : list Byte.byte :=
  match n with
  | O => []
  | S n' => be_bytes n' (Z.shiftr x 8) ++ [byte_of_Z x]
  end.

Definition be_word (bs : list Byte.byte) : Z :=
  fold_left (fun acc b => acc * 256 + byte_to_Z b) bs 0.

(** Padding: a one bit, zeros, and the length in bits on 64 bits. *)
Definition pad (msg : list Byte.byte) : list Byte.byte :=
  let len := Z.of_nat (length msg) in
  let zeros := Z.to_nat ((55 - len) mod 64) in
  msg ++ [Byte.x80] ++ replicate zeros Byte.x00 ++ be_bytes 8 (8 * len).

(** The words of a byte string, four bytes each. *)
Fixpoint words (fuel : nat) (bs : list Byte.byte) : list Z :=
  match fuel, bs with
  | S fuel', _ :: _ => be_word (take 4 bs) :: words fuel' (drop 4 bs)
  | _, _ => []
  end.

(** The blocks of a list of words, sixteen words each. *)
Fixpoint blocks (fuel : nat) (ws : list Z) : list (list Z) :=
  match fuel, ws with
  | S fuel', _ :: _ => take 16 ws :: blocks fuel' (drop 16 ws)
  | _, _ => []
  end.

(** The message schedule, extended by [n] words. *)
Fixpoint schedule (n : nat) (w : list Z) : list Z :=
  match n with
  | O => w
  | S n' =>
      let t := length w in
      let at_ i := nth (t - i) w 0 in
      schedule n'
        (w ++ [add32 (add32 (sigma1 (at_ 2%nat)) (at_ 7%nat))
                     (add32 (sigma0 (at_ 15%nat)) (at_ 16%nat))])
  end.

Definition round (s : state) (kw : Z * Z) : state :=
  let '(a, b, c, d, e, f, g, h) := s in
  let T1 := add32 (add32 (add32 h (Sigma1 e)) (add32 (Ch e f g) (fst kw)))
                  (snd kw) in
  let T2 := add32 (Sigma0 a) (Maj a b c) in
  (add32 T1 T2, a, b, c, add32 d T1, e, f, g).

Definition compress (s : state) (block : list Z) : state :=
  let '(a, b, c, d, e, f, g, h) :=
    fold_left round (combine K256 (schedule 48 block)) s in
  let '(a0, b0, c0, d0, e0, f0, g0, h0) := s in
  (add32 a0 a, add32 b0 b, add32 c0 c, add32 d0 d,
   add32 e0 e, add32 f0 f, add32 g0 g, add32 h0 h).

(** [hashlib.sha256(data).digest()] *)
Definition digest (msg : list Byte.byte) : list Byte.byte :=
  let padded := pad msg in
  let ws := words (length padded) padded in
  let '(a, b, c, d, e, f, g, h) :=
    fold_left compress (blocks (length ws) ws) H0 in
  be_bytes 4 a ++ be_bytes 4 b ++ be_bytes 4 c ++ be_bytes 4 d ++
  be_bytes 4 e ++ be_bytes 4 f ++ be_bytes 4 g ++ be_bytes 4 h.

Definition hex_digit (n : Z) : Ascii.ascii :=
  default "0"%char (String.get (Z.to_nat n) "0123456789abcdef").

Fixpoint hex (bs : list Byte.byte) : string :=
  match bs with
  | [] => EmptyString
  | b :: bs' =>
      String (hex_digit (byte_to_Z b / 16))
        (String (hex_digit (byte_to_Z b mod 16)) (hex bs'))
  end.

Definition is_lower_hex (c : Ascii.ascii) : bool :=
  let n := Z.of_nat (Ascii.nat_of_ascii c) in
  ((48 <=? n) && (n <=? 57)) || ((97 <=? n) && (n <=? 102)).

Fixpoint all_lower_hex (s : string) : bool :=
  match s with
  | EmptyString => true
  | String c s' => is_lower_hex c && all_lower_hex s'
  end.

(** [hashlib.sha256(data).hexdigest()] *)
Definition hexdigest (msg : list Byte.byte) : string := hex (digest msg).

End SHA256.

(** ** Pillow: images *)

Module PIL.

Inductive Mode : Type := L | LA | RGB | RGBA.

#[global] Instance Mode_eq_dec : EqDecision Mode.
Proof. solve_decision. Defined.

(** One pixel: its bands, in the order of the mode. *)
Definition pixel : Type := list Byte.byte.

Record Image : Type := mkImage {
  mode : Mode;
  width : nat;
  height : nat;
  pixels : list (list pixel)   (* [height] rows of [width] pixels *)
}.

(** A grid of [h] rows of [w] cells. *)
Definition rectangular {A} (w h : nat) (rows : list (list A)) : Prop :=
  length rows = h /\ Forall (fun r => length r = w) rows.

(** The rows have the declared shape. *)
Definition wf_image (im : Image) : Prop :=
  rectangular (width im) (height im) (pixels im).

Definition copy (im : Image) : Image := im.

(** The columns of a grid of width [w], left to right. *)
Fixpoint columns {A} (w : nat) (rows : list (list A)) : list (list A) :=
  match rows with
  | [] => replicate w []
  | r :: rs => zip_with cons r (columns w rs)
  end.

Inductive Transpose : Type := ROTATE_90 | ROTATE_180 | ROTATE_270.

(** [Image.transpose]: rotations are counter-clockwise. *)
Definition transpose (im : Image) (method : Transpose) : Image :=
  match method with
  | ROTATE_90 =>
      mkImage (mode im) (height im) (width im)
              (rev (columns (width im) (pixels im)))
  | ROTATE_180 =>
      mkImage (mode im) (width im) (height im)
              (rev (map (@rev pixel) (pixels im)))
  | ROTATE_270 =>
      mkImage (mode im) (height im) (width im)
              (map (@rev pixel) (columns (width im) (pixels im)))
  end.

Definition bands (m : Mode) : nat :=
  match m with L => 1 | LA => 2 | RGB => 3 | RGBA => 4 end%nat.

Definition zero_pixel (m : Mode) : pixel := replicate (bands m) Byte.x00.

(** A grid of [h] rows of [w] pixels, computed pixel by pixel. *)
Definition grid (w h : nat) (f : nat -> nat -> pixel) : list (list pixel) :=
  map (fun y => map (fun x => f x y) (seq 0 w)) (seq 0 h).

(** [Image.new(mode, size, 0)] *)
Definition new (m : Mode) (w h : nat) : Image :=
  mkImage m w h (grid w h (fun _ _ => zero_pixel m)).

(** The pixel at [(x, y)]; outside the image, zero in every band. *)
Definition getpixel (im : Image) (x y : Z) : pixel :=
  if (0 <=? x) && (0 <=? y) then
    match pixels im !! Z.to_nat y with
    | Some row => default (zero_pixel (mode im)) (row !! Z.to_nat x)
    | None => zero_pixel (mode im)
    end
  else zero_pixel (mode im).

(** [Image.crop(box)], [box = (left, upper, right, lower)] *)
Definition crop (im : Image) (box : Z * Z * Z * Z) : result Image :=
  let '(x_left, y_upper, x_right, y_lower) := box in
  if x_right <? x_left
  then Raise (ValueError "Coordinate 'right' is less than 'left'")
  else if y_lower <? y_upper
  then Raise (ValueError "Coordinate 'lower' is less than 'upper'")
  else Val (mkImage (mode im) (Z.to_nat (x_right - x_left))
              (Z.to_nat (y_lower - y_upper))
              (grid (Z.to_nat (x_right - x_left))
                 (Z.to_nat (y_lower - y_upper))
                 (fun x y => getpixel im (x_left + Z.of_nat x)
                                         (y_upper + Z.of_nat y)))).

(** One pixel of [Image.convert("RGB")]: grey is replicated, alpha is
    dropped. *)
Definition pixel_to_RGB (m : Mode) (p : pixel) : pixel :=
  match m with
  | L | LA => let l := hd Byte.x00 p in [l; l; l]
  | RGB => p
  | RGBA => take 3 p
  end.

(** [Image.convert("RGB")] *)
Definition convert_RGB (im : Image) : Image :=
  match mode im with
  | RGB => copy im
  | m => mkImage RGB (width im) (height im)
           (map (map (pixel_to_RGB m)) (pixels im))
  end.

(** [Image.tobytes()]: rows top to bottom, pixels left to right, bands
    interleaved. *)
Definition tobytes (im : Image) : list Byte.byte :=
  concat (concat (pixels im)).

(** [Image.paste(im, (x, y))], which updates the image it is called on:
    the result is the updated image; what falls outside is clipped. *)
Definition paste (bkg im : Image) (box : Z * Z) : Image :=
  let '(x0, y0) := box in
  mkImage (mode bkg) (width bkg) (height bkg)
    (grid (width bkg) (height bkg)
       (fun x y =>
          let sx := Z.of_nat x - x0 in
          let sy := Z.of_nat y - y0 in
          if (0 <=? sx) && (sx <? Z.of_nat (width im)) &&
             (0 <=? sy) && (sy <? Z.of_nat (height im))
          then getpixel im sx sy
          else getpixel bkg (Z.of_nat x) (Z.of_nat y))).

Inductive Resampling : Type := NEAREST | BICUBIC | LANCZOS.

End PIL.
Export PIL.

(** The parts of Pillow that compute pixel values by resampling, filtering
    or interpolation.  The model fixes the geometry of their results and
    leaves the pixel values to these functions. *)
Class Kernels : Type := {
  (** [Image.rotate] away from the multiples of 90 degrees *)
  rotate_affine : Image -> Z -> bool -> Image;
  (** [Image.resize]: the pixel at [(x, y)] of the resampled image of size
      [(w, h)] *)
  resample_px : Resampling -> Image -> nat -> nat -> nat -> nat -> pixel;
  (** [ImageOps.fit]: the pixel at [(x, y)] of the cover of size [(w, h)] *)
  fit_px : Image -> nat -> nat -> nat -> nat -> pixel;
  (** [ImageOps.contain]: the image scaled to fit inside the box *)
  ImageOps_contain : Image -> Z * Z -> Image;
  (** [ImageFilter.BoxBlur(radius)]: the blurred pixel at [(x, y)] *)
  box_blur_px : Z -> Image -> nat -> nat -> pixel;
  (** [Image.blend] for a factor other than 0.0 and 1.0 *)
  blend_px : Image -> Image -> Float64.float -> nat -> nat -> pixel;
  (** the degenerate images of [ImageEnhance.Contrast], [ImageEnhance.Color]
      and [ImageEnhance.Sharpness]: mean grey, greyscale, smoothed *)
  Contrast_degenerate : Image -> Image;
  Color_degenerate : Image -> Image;
  Sharpness_degenerate : Image -> Image;
}.

(** ** The world outside the interpreter: files, the log, and what the
    network, the temporary-name generator, the browser and the image decoder
    answer *)

Record World : Type := mkWorld {
  fs : gmap string (list Byte.byte);   (* path -> content *)
  log : list string                    (* what [logger.error] has written *)
}.

Record Response : Type := mkResponse {
  status_code : Z;
  content : list Byte.byte
}.

Record CompletedProcess : Type := mkCompletedProcess {
  returncode : Z;
  stdout : list Byte.byte;
  stderr : list Byte.byte
}.

Class Env : Type := {
  (** [requests.get(url)] *)
  requests_get : string -> result Response;
  (** the decoder behind [Image.open] *)
  decode_image : list Byte.byte -> result Image;
  (** the candidate name of [tempfile.NamedTemporaryFile(suffix=...)] *)
  mktemp : string -> gmap string (list Byte.byte) -> result string;
  (** [subprocess.run(command, ...)]: the process reads and writes files *)
  subprocess_run :
    list string -> gmap string (list Byte.byte) ->
    result (CompletedProcess * gmap string (list Byte.byte));
  (** [bytes.decode('utf-8')] and [str.encode("utf-8")] *)
  decode_utf8 : list Byte.byte -> result string;
  encode_utf8 : string -> result (list Byte.byte);
  (** [repr] of a byte string *)
  repr_bytes : list Byte.byte -> string;
}.

Module OS.
Section OS.

Context {E : Env}.

(** [logger.error(msg)] *)
Definition logger_error (msg : string) (w : World) : result unit * World :=
  (Val tt, mkWorld (fs w) (log w ++ [msg])).

(** [tempfile.NamedTemporaryFile(suffix=..., delete=False)], giving the
    name of the file: it is created empty and kept when closed. *)
Definition NamedTemporaryFile (suffix : string) (w : World)
    : result string * World :=
  match mktemp suffix (fs w) with
  | Val name =>
      match fs w !! name with
      | Some _ => (Raise FileExistsError, w)
      | None => (Val name, mkWorld (<[name := []]> (fs w)) (log w))
      end
  | Raise e => (Raise e, w)
  end.

(** [f.write(data)] on the open file [path] *)
Definition write (path : string) (data : list Byte.byte) (w : World)
    : result unit * World :=
  (Val tt, mkWorld (<[path := data]> (fs w)) (log w)).

(** [os.remove(path)] *)
Definition remove (path : string) (w : World) : result unit * World :=
  match fs w !! path with
  | Some _ => (Val tt, mkWorld (delete path (fs w)) (log w))
  | None => (Raise (FileNotFoundError path), w)
  end.

(** [os.path.exists(path)] *)
Definition path_exists (path : string) (w : World) : result bool * World :=
  (Val (bool_decide (is_Some (fs w !! path))), w).

(** [os.path.getsize(path)] *)
Definition path_getsize (path : string) (w : World) : result Z * World :=
  match fs w !! path with
  | Some data => (Val (Z.of_nat (length data)), w)
  | None => (Raise (FileNotFoundError path), w)
  end.

(** [with open(path, 'rb') as f: f.read(n)] *)
Definition read_bytes (path : string) (n : Z) (w : World)
    : result (list Byte.byte) * World :=
  match fs w !! path with
  | Some data => (Val (take (Z.to_nat n) data), w)
  | None => (Raise (FileNotFoundError path), w)
  end.

(** [with Image.open(path) as img: img.copy()] *)
Definition Image_open_copy (path : string) (w : World)
    : result Image * World :=
  match fs w !! path with
  | Some data =>
      match decode_image data with
      | Val img => (Val (copy img), w)
      | Raise e => (Raise e, w)
      end
  | None => (Raise (FileNotFoundError path), w)
  end.

(** [subprocess.run(command, stdout=PIPE, stderr=PIPE)] *)
Definition run (command : list string) (w : World)
    : result CompletedProcess * World :=
  match subprocess_run command (fs w) with
  | Val (cp, fs') => (Val cp, mkWorld fs' (log w))
  | Raise e => (Raise e, w)
  end.

End OS.
End OS.

Section ImageUtils.

Context {K : Kernels} {E : Env}.

(** [get_image(image_url)] *)
Definition get_image (image_url : string) : World -> result (option Image) * World :=
  call (None : option Image) None (
    let* response := eval (requests_get image_url) in
    exec set_local (fun _ => None) in
    exec (if ((200 <=? status_code response) && (status_code response <? 300))
             || (status_code response =? 304)
          then
            let* img := eval (decode_image (content response)) in
            set_local (fun _ => Some img)
          else
            on_world (OS.logger_error
              ("Received non-200 response from " +:+ image_url +:+
               ": status_code: " +:+ pretty (status_code response)))) in
    let* img := get_local in
    return_ img).

(** The locals of [take_screenshot] that outlive the [try] block. *)
Record ts_locals : Type := mkLocals {
  image : option Image;
  img_file_path : option string
}.

(** The command line of the headless browser. *)
Definition command (target img_file_path : string) (dimensions : Z * Z)
    (timeout_ms : Z) : list string :=
  [ "chromium-headless-shell";
    target;
    "--headless";
    "--screenshot=" +:+ img_file_path;
    "--window-size=" +:+ pretty (fst dimensions) +:+ "," +:+
      pretty (snd dimensions);
    "--timeout=" +:+ pretty timeout_ms;
    "--disable-dev-shm-usage";
    "--disable-gpu";
    "--use-gl=swiftshader";
    "--hide-scrollbars";
    "--in-process-gpu";
    "--js-flags=--jitless";
    "--disable-zero-copy";
    "--disable-gpu-memory-buffer-compositor-resources";
    "--disable-extensions";
    "--disable-plugins";
    "--mute-audio";
    "--no-sandbox";
    "--virtual-time-budget=10000" ].

(** [take_screenshot(target, dimensions, timeout_ms=None)] *)
Definition take_screenshot (target : string) (dimensions : Z * Z)
    (timeout_ms : option Z) : World -> result (option Image) * World :=
  call (mkLocals None None) None (
    exec try_except (
      (* Create a temporary output file for the screenshot *)
      let* path := on_world (OS.NamedTemporaryFile ".png") in
      exec set_local (fun l => mkLocals (image l) (Some path)) in
      (* Default timeout of 10 seconds if not specified *)
      let timeout_ms := default 10000 timeout_ms in
      let command := command target path dimensions timeout_ms in
      let* result := on_world (OS.run command) in
      (* Check if the process failed *)
      exec when (negb (returncode result =? 0)) (
        exec on_world (OS.logger_error "Chromium process failed:") in
        let* err := eval (decode_utf8 (stderr result)) in
        exec on_world (OS.logger_error err) in
        exec when (negb (bool_decide (stdout result = []))) (
          let* out := eval (decode_utf8 (stdout result)) in
          on_world (OS.logger_error out)) in
        return_ None) in
      (* Check if the output file exists *)
      let* present := on_world (OS.path_exists path) in
      exec when (negb present) (
        exec on_world (OS.logger_error
          ("Screenshot file was not created: " +:+ path)) in
        return_ None) in
      (* Check if the file has content *)
      let* file_size := on_world (OS.path_getsize path) in
      exec when (file_size =? 0) (
        exec on_world (OS.logger_error
          ("Screenshot file is empty (0 bytes): " +:+ path)) in
        return_ None) in
      (* Try to load the image using PIL *)
      exec try_except (
        let* img := on_world (OS.Image_open_copy path) in
        set_local (fun l => mkLocals (Some img) (img_file_path l)))
      (fun img_error =>
        exec on_world (OS.logger_error
          ("Failed to open screenshot file as image (file size: " +:+
           pretty file_size +:+ " bytes): " +:+ exn_str img_error)) in
        (* Log first few bytes for debugging *)
        let* header := on_world (OS.read_bytes path (Z.min 100 file_size)) in
        exec on_world (OS.logger_error
          ("File header (first " +:+ pretty (Z.of_nat (length header)) +:+
           " bytes): " +:+ repr_bytes (take 50 header))) in
        return_ None) in
      (* Remove image files *)
      on_world (OS.remove path))
    (fun e =>
      exec on_world (OS.logger_error
        ("Failed to take screenshot: " +:+ exn_str e)) in
      (* Clean up temp file if it exists *)
      let* l := get_local in
      match img_file_path l with
      | Some path =>
          let* present := on_world (OS.path_exists path) in
          when present
            (try_except (on_world (OS.remove path)) (fun _ => ret tt))
      | None => ret tt
      end) in
    let* l := get_local in
    return_ (image l)).

(** The validation sequence as the specification words it (section 4.6):
    after the process returns, four short-circuiting checkpoints, each
    yielding absence: (1) non-zero exit code, (2) output file missing,
    (3) output file of zero length, (4) output file not decodable; an
    unexpected exception anywhere also yields absence; only the path
    through all four checkpoints yields the bitmap. *)
Definition renderTarget_spec (target : string) (dimensions : Z * Z)
    (timeout_ms : option Z) (w : World) : option Image :=
  match mktemp ".png" (fs w) with
  | Raise _ => None
  | Val path =>
      match fs w !! path with
      | Some _ => None
      | None =>
          match subprocess_run
                  (command target path dimensions (default 10000 timeout_ms))
                  (<[path := []]> (fs w)) with
          | Raise _ => None
          | Val (process, files) =>
              if negb (returncode process =? 0) then None
              else match files !! path with
                   | None => None
                   | Some [] => None
                   | Some data =>
                       match decode_image data with
                       | Raise _ => None
                       | Val img => Some img
                       end
                   end
          end
      end
  end.

(** The four checkpoints of the specification, in its order: (1) the
    process exited with code 0, (2) the output file exists, (3) it is not
    empty, (4) it decodes as an image. *)
Inductive checkpoint : Type :=
| ProcessSucceeded
| FileCreated
| FileNotEmpty
| FileDecodes.

(** The first checkpoint that fails when they are tried in that order on
    what the process left; [None] when all four pass. *)
Definition first_failed_checkpoint (process : CompletedProcess)
    (file : option (list Byte.byte)) : option checkpoint :=
  if negb (returncode process =? 0) then Some ProcessSucceeded
  else match file with
       | None => Some FileCreated
       | Some [] => Some FileNotEmpty
       | Some data =>
           match decode_image data with
           | Raise _ => Some FileDecodes
           | Val _ => None
           end
       end.

(** How a log line names the checkpoint at which [take_screenshot]
    stopped (lines 150, 158, 164 and 172 of the source). *)
Definition names_checkpoint (c : checkpoint) (path line : string) : Prop :=
  match c with
  | ProcessSucceeded => line = "Chromium process failed:"
  | FileCreated => line = "Screenshot file was not created: " +:+ path
  | FileNotEmpty => line = "Screenshot file is empty (0 bytes): " +:+ path
  | FileDecodes =>
      exists detail,
        line = "Failed to open screenshot file as image" +:+ detail
  end.

(** [take_screenshot_html(html_str, dimensions, timeout_ms=None)] *)
Definition take_screenshot_html (html_str : string) (dimensions : Z * Z)
    (timeout_ms : option Z) : World -> result (option Image) * World :=
  call (None : option Image) None (
    (* Default timeout of 15 seconds for pages with external resources *)
    let timeout_ms := default 15000 timeout_ms in
    exec try_except (
      (* Create a temporary HTML file *)
      let* html_file_path := on_world (OS.NamedTemporaryFile ".html") in
      let* data := eval (encode_utf8 html_str) in
      exec on_world (OS.write html_file_path data) in
      let* image :=
        on_world (take_screenshot html_file_path dimensions (Some timeout_ms)) in
      exec set_local (fun _ => image) in
      (* Remove html file *)
      on_world (OS.remove html_file_path))
    (fun e =>
      on_world (OS.logger_error
        ("Failed to take screenshot: " +:+ exn_str e))) in
    let* image := get_local in
    return_ image).

(** [Image.rotate(angle, expand)]: the multiples of 90 degrees are
    transpositions. *)
Definition rotate (im : Image) (angle : Z) (expand : bool) : Image :=
  let a := angle mod 360 in
  if a =? 0 then copy im
  else if a =? 180 then transpose im ROTATE_180
  else if (a =? 90) && (expand || (width im =? height im)%nat)
  then transpose im ROTATE_90
  else if (a =? 270) && (expand || (width im =? height im)%nat)
  then transpose im ROTATE_270
  else rotate_affine im angle expand.

(** [change_orientation(image, orientation, inverted=False)] *)
Definition change_orientation (image : Image) (orientation : string)
    (inverted : bool) : result Image :=
  let angle : option Z :=
    if String.eqb orientation "horizontal" then Some 0
    else if String.eqb orientation "vertical" then Some 90
    else None in
  let! angle :=
    (if inverted
     then let! a := read_local "angle" angle in
          Val (Some ((a + 180) mod 360))
     else Val angle) in
  let! a := read_local "angle" angle in
  Val (rotate image a true).

(** [Image.resize(size, resample)] *)
Definition resize (im : Image) (size : Z * Z) (resample : Resampling)
    : result Image :=
  let '(w, h) := size in
  if bool_decide ((Z.of_nat (width im), Z.of_nat (height im)) = (w, h))
  then Val (copy im)
  else if (w <? 1) || (h <? 1)
  then Raise (ValueError "height and width must be > 0")
  else Val (mkImage (mode im) (Z.to_nat w) (Z.to_nat h)
              (grid (Z.to_nat w) (Z.to_nat h)
                 (resample_px resample im (Z.to_nat w) (Z.to_nat h)))).

(** [resize_image(image, desired_size, image_settings=[])] *)
Definition resize_image (image : Image) (desired_size : Z * Z)
    (image_settings : list string) : result Image :=
  let '(img_width, img_height) :=
    (Z.of_nat (width image), Z.of_nat (height image)) in
  let '(desired_width, desired_height) := desired_size in
  let! img_ratio := Float64.int_truediv img_width img_height in
  let! desired_ratio := Float64.int_truediv desired_width desired_height in
  let keep_width := bool_decide ("keep-width" ∈ image_settings) in
  let '(x_offset, y_offset) := (0, 0) in
  let '(new_width, new_height) := (img_width, img_height) in
  (* Step 1: Determine crop dimensions *)
  let! desired_ratio := Float64.int_truediv desired_width desired_height in
  let! '(x_offset, y_offset, new_width, new_height) :=
    (if Float64.gt img_ratio desired_ratio then
       (* Image is wider than desired aspect ratio *)
       let! h := Float64.of_int img_height in
       let! new_width := Float64.to_int (Float64.mul h desired_ratio) in
       let x_offset :=
         if negb keep_width then (img_width - new_width) / 2
         else x_offset in
       Val (x_offset, y_offset, new_width, new_height)
     else
       (* Image is taller than desired aspect ratio *)
       let! w := Float64.of_int img_width in
       let! q := Float64.truediv w desired_ratio in
       let! new_height := Float64.to_int q in
       let y_offset :=
         if negb keep_width then (img_height - new_height) / 2
         else y_offset in
       Val (x_offset, y_offset, new_width, new_height)) in
  (* Step 2: Crop the image *)
  let! image :=
    crop image (x_offset, y_offset,
                x_offset + new_width, y_offset + new_height) in
  (* Step 3: Resize to the exact desired dimensions (if necessary) *)
  resize image (desired_width, desired_height) LANCZOS.

(** [Image.blend(im1, im2, alpha)] *)
Definition blend (im1 im2 : Image) (alpha : Float64.float) : Image :=
  if Float64.eqb alpha (S754_zero false) then copy im1
  else if Float64.eqb alpha Float64.one then copy im2
  else mkImage (mode im1) (width im1) (height im1)
         (grid (width im1) (height im1) (blend_px im1 im2 alpha)).

(** [ImageEnhance.X(image).enhance(factor)] for the four enhancers *)
Definition Brightness_enhance (image : Image) (factor : Float64.float) :=
  blend (new (mode image) (width image) (height image)) image factor.
Definition Contrast_enhance (image : Image) (factor : Float64.float) :=
  blend (Contrast_degenerate image) image factor.
Definition Color_enhance (image : Image) (factor : Float64.float) :=
  blend (Color_degenerate image) image factor.
Definition Sharpness_enhance (image : Image) (factor : Float64.float) :=
  blend (Sharpness_degenerate image) image factor.

(** [image_settings.get(key, 1.0)] *)
Definition get_setting (image_settings : gmap string Float64.float)
    (key : string) : Float64.float :=
  default Float64.one (image_settings !! key).

(** [apply_image_enhancement(img, image_settings={})] *)
Definition apply_image_enhancement (img : Image)
    (image_settings : gmap string Float64.float) : Image :=
  (* Convert image to RGB mode if necessary for enhancement operations *)
  let img :=
    if negb (bool_decide (mode img = RGB) || bool_decide (mode img = L))
    then convert_RGB img else img in
  (* Apply Brightness *)
  let img := Brightness_enhance img (get_setting image_settings "brightness") in
  (* Apply Contrast *)
  let img := Contrast_enhance img (get_setting image_settings "contrast") in
  (* Apply Saturation (Color) *)
  let img := Color_enhance img (get_setting image_settings "saturation") in
  (* Apply Sharpness *)
  let img := Sharpness_enhance img (get_setting image_settings "sharpness") in
  img.

(** [ImageOps.fit(image, size)]: a cover of exactly the requested size *)
Definition ImageOps_fit (image : Image) (size : Z * Z) : Image :=
  let '(w, h) := size in
  mkImage (mode image) (Z.to_nat w) (Z.to_nat h)
    (grid (Z.to_nat w) (Z.to_nat h) (fit_px image (Z.to_nat w) (Z.to_nat h))).

(** [image.filter(ImageFilter.BoxBlur(radius))]: same mode and size *)
Definition filter_BoxBlur (image : Image) (radius : Z) : Image :=
  mkImage (mode image) (width image) (height image)
    (grid (width image) (height image) (box_blur_px radius image)).

(** [pad_image_blur(img, dimensions)] *)
Definition pad_image_blur (img : Image) (dimensions : Z * Z) : Image :=
  let bkg := ImageOps_fit img dimensions in
  let bkg := filter_BoxBlur bkg 8 in
  let img := ImageOps_contain img dimensions in
  let img_size := (Z.of_nat (width img), Z.of_nat (height img)) in
  let bkg := paste bkg img ((fst dimensions - fst img_size) / 2,
                            (snd dimensions - snd img_size) / 2) in
  bkg.

(** Two successive calls with the same orientation and opposite
    inversion flags, [first] being the flag of the first call. *)
Definition change_orientation_twice (image : Image) (orientation : string)
    (first : bool) : result Image :=
  let! once := change_orientation image orientation first in
  change_orientation once orientation (negb first).

(** [compute_image_hash(image)]: Compute SHA-256 hash of an image. *)
Definition compute_image_hash (image : Image) : string :=
  let image := convert_RGB image in
  let img_bytes := tobytes image in
  SHA256.hexdigest img_bytes.

End ImageUtils.

(** ** Concrete kernels and images to run the definitions on *)

(** Nearest-neighbour stand-ins for the resampling and filtering kernels. *)
Definition nearest_kernels : Kernels := {|
  rotate_affine := fun im _ _ => im;
  resample_px := fun _ im w h x y =>
    getpixel im (Z.of_nat (x * width im / w)) (Z.of_nat (y * height im / h));
  fit_px := fun im w h x y =>
    getpixel im (Z.of_nat (x * width im / w)) (Z.of_nat (y * height im / h));
  ImageOps_contain := fun im _ => im;
  box_blur_px := fun _ im x y => getpixel im (Z.of_nat x) (Z.of_nat y);
  blend_px := fun _ im2 _ x y => getpixel im2 (Z.of_nat x) (Z.of_nat y);
  Contrast_degenerate := fun im => new (mode im) (width im) (height im);
  Color_degenerate := fun im => new (mode im) (width im) (height im);
  Sharpness_degenerate := fun im => im
|}.

(** One opaque pixel with and without its alpha band, and a grey pixel in
    greyscale and in colour. *)
Definition rgba_pixel : Image :=
  mkImage RGBA 1 1 [[[Byte.x01; Byte.x02; Byte.x03; Byte.xff]]].
Definition rgb_pixel : Image :=
  mkImage RGB 1 1 [[[Byte.x01; Byte.x02; Byte.x03]]].
Definition grey_pixel : Image := mkImage L 1 1 [[[Byte.x07]]].

(** An environment whose server answers 200 with bytes that no decoder
    identifies, and whose browser exits with code 1. *)
Definition failing_env : Env := {|
  requests_get := fun _ => Val (mkResponse 200 [Byte.x00]);
  decode_image := fun _ => Raise UnidentifiedImageError;
  mktemp := fun suffix _ => Val ("/tmp/tmpk3x9" +:+ suffix);
  subprocess_run := fun _ files => Val (mkCompletedProcess 1 [] [], files);
  decode_utf8 := fun _ => Val "";
  encode_utf8 := fun _ => Val [];
  repr_bytes := fun _ => "b''"
|}.

Definition empty_world : World := mkWorld ∅ [].

Definition full_hd : Image := new RGB 1920 1080.

(** A blank colour image of 1008 by 672, three to two. *)
Definition photo_3_2 : Image := new RGB 1008 672.

(** An environment in which everything works: the browser exits with
    code 0 and writes two bytes to the screenshot file, which decode. *)
Definition working_env : Env := {|
  requests_get := fun _ => Val (mkResponse 200 [Byte.x00]);
  decode_image := fun _ => Val rgb_pixel;
  mktemp := fun suffix _ => Val ("/tmp/tmpk3x9" +:+ suffix);
  subprocess_run := fun _ files =>
    Val (mkCompletedProcess 0 [] [],
         <["/tmp/tmpk3x9.png" := [Byte.x89; Byte.x50]]> files);
  decode_utf8 := fun _ => Val "";
  encode_utf8 := fun _ => Val [Byte.x3c];
  repr_bytes := fun _ => "b''"
|}.

(** An environment in which the document cannot be encoded. *)
Definition unencodable_env : Env := {|
  requests_get := fun _ => Val (mkResponse 200 [Byte.x00]);
  decode_image := fun _ => Val rgb_pixel;
  mktemp := fun suffix _ => Val ("/tmp/tmpk3x9" +:+ suffix);
  subprocess_run := fun _ files => Val (mkCompletedProcess 0 [] [], files);
  decode_utf8 := fun _ => Val "";
  encode_utf8 := fun _ => Raise UnicodeEncodeError;
  repr_bytes := fun _ => "b''"
|}.

(** The two grey pixels one above the other, and a bitmap whose rows have
    different lengths. *)
Definition two_pixels_stacked : Image :=
  mkImage L 1 2 [[[Byte.x01]]; [[Byte.x02]]].
Definition ragged : Image :=
  mkImage L 2 2 [[[Byte.x01]]; [[Byte.x02]; [Byte.x03]; [Byte.x04]]].

(** A grey image of two pixels side by side. *)
Definition two_pixels : Image :=
  mkImage L 2 1 [[[Byte.x01]; [Byte.x02]]].
(** ** datetime: the proleptic Gregorian calendar of [datetime.date] *)

Module Calendar.

Definition is_leap (year : Z) : bool :=
  (year mod 4 =? 0) && (negb (year mod 100 =? 0) || (year mod 400 =? 0)).

(** Number of days before January 1st of [year]. *)
Definition days_before_year (year : Z) : Z :=
  let y := year - 1 in y * 365 + y / 4 - y / 100 + y / 400.

Definition days_in_month (year month : Z) : Z :=
  if month =? 2 then (if is_leap year then 29 else 28)
  else if (month =? 4) || (month =? 6) || (month =? 9) || (month =? 11)
  then 30 else 31.

(** Number of days in [year] before the first day of [month]. *)
Definition days_before_month (year month : Z) : Z :=
  nth (Z.to_nat month)
      [0; 0; 31; 59; 90; 120; 151; 181; 212; 243; 273; 304; 334] 0
  + (if (2 <? month) && is_leap year then 1 else 0).

Record date : Type := mkDate { year : Z; month : Z; day : Z }.

Definition valid_date (d : date) : Prop :=
  1 <= year d <= 9999 /\ 1 <= month d <= 12 /\
  1 <= day d <= days_in_month (year d) (month d).

(** [date(year, month, day)]: the fields are checked. *)
Definition date_new (y m d : Z) : result date :=
  if negb ((1 <=? y) && (y <=? 9999))
  then Raise (ValueError "year is out of range")
  else if negb ((1 <=? m) && (m <=? 12))
  then Raise (ValueError "month must be in 1..12")
  else if negb ((1 <=? d) && (d <=? days_in_month y m))
  then Raise (ValueError "day is out of range for month")
  else Val (mkDate y m d).

(** [d.replace(year=y)] *)
Definition replace_year (d : date) (y : Z) : result date :=
  date_new y (month d) (day d).

(** [d.toordinal()]: January 1st of year 1 is day 1. *)
Definition toordinal (d : date) : Z :=
  days_before_year (year d) + days_before_month (year d) (month d) + day d.

(** [a < b] *)
Definition date_ltb (a b : date) : bool :=
  (year a <? year b) ||
  ((year a =? year b) &&
   ((month a <? month b) ||
    ((month a =? month b) && (day a <? day b)))).

(** [(a - b).days] *)
Definition days_between (a b : date) : Z := toordinal a - toordinal b.

End Calendar.

(** ** The weather dashboard plugin:
    [src/plugins/weather_dashboard/weather_dashboard.py] *)

Module WeatherDashboard.
Import Calendar.

(** What is raised inside the plugin: the exceptions above, and the
    [AttributeError] of a method call on a value that has no such method. *)
Inductive error : Type :=
| Builtin (e : exn)
| AttributeError (msg : string)
| CsvError (msg : string).

(** [str(e)] *)
Definition error_str (e : error) : string :=
  match e with
  | Builtin e => exn_str e
  | AttributeError msg => msg
  | CsvError msg => msg
  end.

Inductive level : Type := WARNING | ERROR.

(** The items of one row of [csv.DictReader], in order: [None] stands for
    a key or a value that is not a string (the key of surplus fields, the
    value of a missing field). *)
Definition raw_row : Type := list (option string * option string).

(** What the libraries answer: the clock, [strptime] and [strftime], the
    CSV reader, [str.strip] and [repr]. *)
Class Library : Type := {
  (** [datetime.now(tz).date()] *)
  today : string -> date;
  (** the fields [(year, month, day)] that [datetime.strptime(s, format)]
      reads before it builds the date *)
  strptime_fields : string -> string -> result (Z * Z * Z);
  (** [tz.localize(d)] of pytz: the wall-clock fields are kept, so only
      whether it raises is left open *)
  localize : string -> date -> result unit;
  (** [d.strftime(format)] *)
  strftime : date -> string -> string;
  (** [s.strip()] *)
  str_strip : string -> string;
  (** the rows that [csv.DictReader] yields for the file, and the exception
      that ends the reading, if any *)
  read_csv : string -> list raw_row * option error;
  (** [repr] of a row, as read and after stripping *)
  repr_raw_row : raw_row -> string;
  repr_dict : list (string * string) -> string
}.

Record birthday_entry : Type := mkBirthday {
  name : string;
  date_label : string;       (* 'date' *)
  days_until : Z;
  age : option Z             (* the key 'age' is set only when truthy *)
}.

Record countdown_info : Type := mkCountdown {
  title : string;
  countdown_date_label : string;   (* 'date' *)
  day_count : Z;
  label : string
}.

(** [d[k] = v] on a dict kept as its items in insertion order. *)
Fixpoint dict_set (d : list (string * string)) (k v : string)
    : list (string * string) :=
  match d with
  | [] => [(k, v)]
  | (k', v') :: d' =>
      if String.eqb k' k then (k', v) :: d' else (k', v') :: dict_set d' k v
  end.

(** [d.get(k, default)] *)
Fixpoint dict_get (d : list (string * string)) (k dflt : string) : string :=
  match d with
  | [] => dflt
  | (k', v') :: d' => if String.eqb k' k then v' else dict_get d' k dflt
  end.

(** Number of occurrences of the character [c]. *)
Fixpoint count_char (c : Ascii.ascii) (s : string) : nat :=
  match s with
  | EmptyString => O
  | String c' s' => (if Ascii.eqb c' c then 1 else 0) + count_char c s'
  end.

(** Stable insertion sort by an integer key, as [list.sort(key=...)]. *)
Fixpoint insert_by {A} (key : A -> Z) (x : A) (l : list A) : list A :=
  match l with
  | [] => [x]
  | y :: l' => if key x <=? key y then x :: y :: l'
               else y :: insert_by key x l'
  end.

Definition sort_by {A} (key : A -> Z) (l : list A) : list A :=
  foldr (insert_by key) [] l.

(** A list is ascending when each element is at most the ones after it. *)
Inductive ascending {A} (key : A -> Z) : list A -> Prop :=
| ascending_nil : ascending key []
| ascending_cons x l :
    Forall (fun y => key x <= key y) l -> ascending key l ->
    ascending key (x :: l).

Section Plugin.

Context {Lib : Library}.

(** [datetime.strptime(s, format).date()] *)
Definition strptime (s format : string) : result date :=
  let! '(y, m, d) := strptime_fields s format in
  date_new y m d.

(** [{k.strip(): v.strip() for k, v in row.items()}] *)
Fixpoint strip_items (items : raw_row) (acc : list (string * string))
    : list (string * string) + error :=
  match items with
  | [] => inl acc
  | (Some k, Some v) :: items' =>
      strip_items items' (dict_set acc (str_strip k) (str_strip v))
  | _ :: _ =>
      inr (AttributeError "'NoneType' object has no attribute 'strip'")
  end.

(** The body of the loop of [load_birthdays] after the row is stripped:
    [None] when the row is passed over, the entry to append otherwise. *)
Definition birthday_of_row (row : list (string * string))
    (current_date : date) : result (option birthday_entry) :=
  let current_year := year current_date in
  (* Parse birthday (expecting format: YYYY-MM-DD or MM-DD) *)
  let date_str := str_strip (dict_get row "date" "") in
  let name := str_strip (dict_get row "name" "") in
  if String.eqb date_str "" || String.eqb name "" then Val None
  else
    let! '(birth_date, birth_year) :=
      (if (count_char "-" date_str + 1 =? 3)%nat then
         (* Try parsing with year first *)
         let! birth_date := strptime date_str "%Y-%m-%d" in
         Val (birth_date, Some (year birth_date))
       else
         (* Just month and day *)
         let! birth_date := strptime date_str "%m-%d" in
         let! birth_date := replace_year birth_date current_year in
         Val (birth_date, None)) in
    (* Calculate next occurrence *)
    let! next_birthday := replace_year birth_date current_year in
    let! next_birthday :=
      (if date_ltb next_birthday current_date
       then replace_year next_birthday (current_year + 1)
       else Val next_birthday) in
    (* Only include if within next 30 days *)
    let days_until := days_between next_birthday current_date in
    if days_until <=? 30 then
      (* Calculate age if birth year is known *)
      let age :=
        match birth_year with
        | Some birth_year =>
            if birth_year =? 0 then None
            else Some (year next_birthday - birth_year)
        | None => None
        end in
      Val (Some (mkBirthday name (strftime next_birthday "%b %d") days_until
                   (match age with
                    | Some 0 => None
                    | other => other
                    end)))
    else Val None.

(** One turn of the loop of [load_birthdays]: the list and the log after
    the row. *)
Definition load_birthdays_row (current_date : date)
    (state : list birthday_entry * list (level * string)) (raw : raw_row)
    : list birthday_entry * list (level * string) :=
  let '(birthdays, journal) := state in
  match strip_items raw [] with
  | inr e =>
      (birthdays,
       journal ++ [(WARNING, "Failed to parse birthday row: " +:+
                             repr_raw_row raw +:+ ", error: " +:+
                             error_str e)])
  | inl row =>
      match birthday_of_row row current_date with
      | Val None => (birthdays, journal)
      | Val (Some entry) => (birthdays ++ [entry], journal)
      | Raise e =>
          (birthdays,
           journal ++ [(WARNING, "Failed to parse birthday row: " +:+
                                 repr_dict row +:+ ", error: " +:+
                                 exn_str e)])
      end
  end.

(** [load_birthdays(csv_path, tz)]: Load birthdays from CSV and return
    upcoming ones (within next 30 days); with them, what was logged. *)
Definition load_birthdays (csv_path tz : string)
    : list birthday_entry * list (level * string) :=
  let current_date := today tz in
  let '(rows, failure) := read_csv csv_path in
  let '(birthdays, journal) :=
    fold_left (load_birthdays_row current_date) rows ([], []) in
  match failure with
  | None =>
      (* Sort by days until birthday *)
      (take 5 (sort_by days_until birthdays), journal)
  | Some e =>
      (take 5 birthdays,
       journal ++ [(ERROR, "Failed to load birthday CSV: " +:+ error_str e)])
  end.

(** [calculate_countdown(countdown_date_str, title, tz)]: Calculate
    countdown information; with it, what was logged. *)
Definition calculate_countdown (countdown_date_str title tz : string)
    : option countdown_info * list (level * string) :=
  let current_date := today tz in
  match (let! countdown_date := strptime countdown_date_str "%Y-%m-%d" in
         let! _ := localize tz countdown_date in
         Val countdown_date) with
  | Val countdown_date =>
      let day_count := days_between countdown_date current_date in
      let label := if 0 <? day_count then "Days Left" else "Days Passed" in
      (Some (mkCountdown title (strftime countdown_date "%B %d, %Y")
               (Z.abs day_count) label), [])
  | Raise e =>
      (None, [(ERROR, "Failed to calculate countdown: " +:+ exn_str e)])
  end.

(** [map_weather_code_to_icon(weather_code, hour)]: Map Open-Meteo weather
    codes to icon names. *)
Definition map_weather_code_to_icon (weather_code hour : Z) : string :=
  let isin l := existsb (Z.eqb weather_code) l in
  let icon := "01d" in
  if isin [0] then "01d"
  else if isin [1] then "02d"
  else if isin [2] then "03d"
  else if isin [3] then "04d"
  else if isin [45; 48] then "50d"
  else if isin [51; 53; 55; 56; 57] then "09d"
  else if isin [61; 63; 65; 66; 67] then "10d"
  else if isin [71; 73; 75; 77] then "13d"
  else if isin [80; 81; 82] then "09d"
  else if isin [85; 86] then "13d"
  else if isin [95; 96; 99] then "11d"
  else icon.

Definition descriptions : list (Z * string) :=
  [ (0, "Clear Sky"); (1, "Mainly Clear"); (2, "Partly Cloudy");
    (3, "Overcast");
    (45, "Foggy"); (48, "Fog"); (51, "Light Drizzle"); (53, "Drizzle");
    (55, "Heavy Drizzle");
    (56, "Freezing Drizzle"); (57, "Heavy Freezing Drizzle");
    (61, "Light Rain"); (63, "Rain"); (65, "Heavy Rain");
    (66, "Freezing Rain"); (67, "Heavy Freezing Rain");
    (71, "Light Snow"); (73, "Snow"); (75, "Heavy Snow"); (77, "Snow Grains");
    (80, "Light Showers"); (81, "Showers"); (82, "Heavy Showers");
    (85, "Light Snow Showers"); (86, "Snow Showers");
    (95, "Thunderstorm"); (96, "Thunderstorm with Hail");
    (99, "Heavy Thunderstorm") ].

(** [get_weather_description(weather_code)]: Get human-readable weather
    description from code. *)
Definition get_weather_description (weather_code : Z) : string :=
  match List.find (fun kv => Z.eqb (fst kv) weather_code) descriptions with
  | Some kv => snd kv
  | None => "Unknown"
  end.

End Plugin.
End WeatherDashboard.


(** A library for the examples: the clock shows 4 November 2026, the file
    holds a birthday on 29 February and one on 20 November, both written
    without a year, and [strptime] reads three dates. *)
Definition november_library : WeatherDashboard.Library :=
  {| WeatherDashboard.today := fun _ => Calendar.mkDate 2026 11 4;
     WeatherDashboard.strptime_fields := fun s _ =>
       if String.eqb s "02-29" then Val (1900, 2, 29)
       else if String.eqb s "11-20" then Val (1900, 11, 20)
       else if String.eqb s "2026-12-25" then Val (2026, 12, 25)
       else Raise (ValueError "time data does not match format");
     WeatherDashboard.localize := fun _ _ => Val tt;
     WeatherDashboard.strftime := fun d _ => pretty (Calendar.day d);
     WeatherDashboard.str_strip := fun s => s;
     WeatherDashboard.read_csv := fun _ =>
       ([[(Some "name", Some "Ada"); (Some "date", Some "02-29")];
         [(Some "name", Some "Bo"); (Some "date", Some "11-20")]], None);
     WeatherDashboard.repr_raw_row := fun _ => "{}";
     WeatherDashboard.repr_dict := fun _ => "{}" |}.

(** * Properties *)

(** ** Grids and their columns *)

Lemma rev_replicate {B : Type} (n : nat) (x : B) :
  rev (replicate n x) = replicate n x.
Proof.
  induction n as [|n IH]; [reflexivity|].
  simpl. rewrite IH. clear IH.
  induction n as [|n IH]; [reflexivity|].
  simpl. now rewrite IH.
Qed.

Section Columns.

Context {A : Type}.
Implicit Types (r : list A) (rows cols : list (list A)).

Lemma Forall_zip_cons n r cols :
  Forall (fun c => length c = n) cols ->
  Forall (fun c => length c = S n) (zip_with cons r cols).
Proof.
  revert cols. induction r as [|x r IH]; intros [|c cols] Hc; simpl;
    try constructor.
  - inversion Hc; subst. reflexivity.
  - apply IH. now inversion Hc.
Qed.

Lemma columns_rectangular w h rows :
  rectangular w h rows -> rectangular h w (columns w rows).
Proof.
  intros [Hh Hw]. subst h. induction Hw as [|r rows Hr _ IH]; simpl.
  - split; [apply length_replicate|]. now apply Forall_replicate.
  - destruct IH as [IHl IHf]. split.
    + rewrite length_zip_with. lia.
    + now apply Forall_zip_cons.
Qed.

(** Taking the columns of the columns gives the rows back. *)
Lemma columns_zip_cons h r cols :
  length r = length cols ->
  columns (S h) (zip_with cons r cols) = r :: columns h cols.
Proof.
  revert cols. induction r as [|x r IH]; intros [|c cols] Hlen;
    try discriminate; [reflexivity|].
  simpl in *. rewrite IH by lia. reflexivity.
Qed.

Lemma columns_zero cols : columns 0 cols = [].
Proof.
  induction cols as [|c cols IH]; [reflexivity|].
  simpl. rewrite IH. apply zip_with_nil_r.
Qed.

Lemma columns_columns w h rows :
  rectangular w h rows -> columns h (columns w rows) = rows.
Proof.
  intros [Hh Hw]. subst h. induction Hw as [|r rows Hr Hrows IH]; simpl.
  - apply columns_zero.
  - rewrite columns_zip_cons, IH; [reflexivity|].
    destruct (columns_rectangular w (length rows) rows) as [Hl _];
      [now split|]. lia.
Qed.

Lemma zip_cons_snoc r cols x c :
  length r = length cols ->
  zip_with cons (r ++ [x]) (cols ++ [c]) = zip_with cons r cols ++ [x :: c].
Proof.
  intros Hlen. now rewrite zip_with_app.
Qed.

Lemma zip_cons_rev r cols :
  length r = length cols ->
  zip_with cons (rev r) (rev cols) = rev (zip_with cons r cols).
Proof.
  revert cols. induction r as [|x r IH]; intros [|c cols] Hlen;
    try discriminate; [reflexivity|].
  simpl in *. rewrite zip_cons_snoc, IH by (rewrite ?length_rev; lia).
  reflexivity.
Qed.

(** Mirroring every row reverses the order of the columns. *)
Lemma columns_map_rev w h rows :
  rectangular w h rows ->
  columns w (map (@rev A) rows) = rev (columns w rows).
Proof.
  intros [Hh Hw]. subst h. induction Hw as [|r rows Hr Hrows IH]; simpl.
  - now rewrite rev_replicate.
  - rewrite IH. apply zip_cons_rev.
    destruct (columns_rectangular w (length rows) rows) as [Hl _];
      [now split|]. lia.
Qed.

Lemma zip_cons_map_rev r cols :
  map (@rev A) (zip_with cons r cols)
  = zip_with (fun c x => c ++ [x]) (map (@rev A) cols) r.
Proof.
  revert cols. induction r as [|x r IH]; intros [|c cols]; simpl;
    try reflexivity. now rewrite IH.
Qed.

Lemma zip_cons_zip_snoc r0 cols r :
  zip_with cons r0 (zip_with (fun c x => c ++ [x]) cols r)
  = zip_with (fun c x => c ++ [x]) (zip_with cons r0 cols) r.
Proof.
  revert cols r. induction r0 as [|x r0 IH]; intros [|c cols] [|y r];
    simpl; rewrite ?zip_with_nil_r; try reflexivity.
  now rewrite IH.
Qed.

Lemma columns_snoc rows r :
  columns (length r) (rows ++ [r])
  = zip_with (fun c x => c ++ [x]) (columns (length r) rows) r.
Proof.
  induction rows as [|r0 rows IH]; simpl.
  - induction r as [|x r IH]; simpl; [reflexivity|]. now rewrite IH.
  - rewrite IH. apply zip_cons_zip_snoc.
Qed.

(** Turning the grid upside down mirrors every column. *)
Lemma columns_rev w h rows :
  rectangular w h rows ->
  columns w (rev rows) = map (@rev A) (columns w rows).
Proof.
  intros [Hh Hw]. subst h. induction Hw as [|r rows Hr Hrows IH]; simpl.
  - induction w as [|w IHw]; simpl; [reflexivity|]. now rewrite <- IHw.
  - subst w. rewrite columns_snoc, IH. symmetry. apply zip_cons_map_rev.
Qed.

End Columns.

Lemma map_rev_rev {A : Type} (rows : list (list A)) :
  map (@rev A) (map (@rev A) rows) = rows.
Proof.
  induction rows as [|r rows IH]; simpl; [reflexivity|].
  now rewrite rev_involutive, IH.
Qed.

(** A quarter turn followed by the opposite quarter turn is the identity. *)
Lemma transpose_90_270 (im : Image) :
  wf_image im -> transpose (transpose im ROTATE_90) ROTATE_270 = im.
Proof.
  intros Hwf. destruct im as [m w h rows]. unfold transpose; simpl in *.
  pose proof (columns_rectangular w h rows Hwf) as Hc.
  rewrite (columns_rev h w) by exact Hc.
  rewrite (columns_columns w h) by exact Hwf.
  now rewrite map_rev_rev.
Qed.

Lemma transpose_270_90 (im : Image) :
  wf_image im -> transpose (transpose im ROTATE_270) ROTATE_90 = im.
Proof.
  intros Hwf. destruct im as [m w h rows]. unfold transpose; simpl in *.
  pose proof (columns_rectangular w h rows Hwf) as Hc.
  rewrite (columns_map_rev h w) by exact Hc.
  rewrite (columns_columns w h) by exact Hwf.
  now rewrite rev_involutive.
Qed.

Section Orientation.

Context {K : Kernels}.

(** C10: with an orientation other than 'horizontal' and 'vertical' the
    local [angle] is never assigned, and the call raises
    [UnboundLocalError] instead of returning a bitmap. *)
Theorem change_orientation_unbound (image : Image) (orientation : string)
    (inverted : bool) :
  orientation <> "horizontal" -> orientation <> "vertical" ->
  change_orientation image orientation inverted
  = Raise (UnboundLocalError "angle").
Proof.
  intros Hh Hv. unfold change_orientation.
  apply String.eqb_neq in Hh, Hv. rewrite Hh, Hv.
  destruct inverted; reflexivity.
Qed.

Lemma change_orientation_horizontal (image : Image) (inverted : bool) :
  change_orientation image "horizontal" inverted
  = Val (if inverted then transpose image ROTATE_180 else image).
Proof. destruct inverted; reflexivity. Qed.

Lemma change_orientation_vertical (image : Image) (inverted : bool) :
  change_orientation image "vertical" inverted
  = Val (transpose image (if inverted then ROTATE_270 else ROTATE_90)).
Proof. destruct inverted; reflexivity. Qed.

(** C2, as amended: two calls with the same orientation and opposite
    inversion flags, in either order, give the bitmap rotated by 180
    degrees when the orientation is 'horizontal' (0 + 180), and the
    original bitmap when it is 'vertical' (90 + 270 = 360). *)
Theorem change_orientation_twice_net (image : Image) (first : bool) :
  wf_image image ->
  change_orientation_twice image "horizontal" first
    = Val (rotate image 180 true) /\
  change_orientation_twice image "vertical" first = Val image.
Proof.
  intros Hwf. unfold change_orientation_twice. split.
  - rewrite change_orientation_horizontal. cbn [rbind].
    rewrite change_orientation_horizontal.
    destruct first; reflexivity.
  - rewrite change_orientation_vertical. cbn [rbind].
    rewrite change_orientation_vertical.
    destruct first; cbn [negb];
      [now rewrite transpose_270_90 | now rewrite transpose_90_270].
Qed.

End Orientation.

Lemma change_orientation_unbound_witness :
  change_orientation (K := nearest_kernels) two_pixels "diagonal" true
  = Raise (UnboundLocalError "angle").
Proof.
  apply (change_orientation_unbound (K := nearest_kernels));
    intros H; discriminate H.
Defined.

Lemma change_orientation_twice_net_witness :
  change_orientation_twice (K := nearest_kernels) two_pixels "horizontal" false
    = Val (rotate (K := nearest_kernels) two_pixels 180 true) /\
  change_orientation_twice (K := nearest_kernels) two_pixels "vertical" false
    = Val two_pixels.
Proof.
  apply (change_orientation_twice_net (K := nearest_kernels)).
  split; [reflexivity | repeat constructor].
Defined.

(** C2 as stated fails for 'vertical': the two calls give the original
    bitmap back, which is not the bitmap rotated by 180 degrees. *)
Lemma change_orientation_twice_vertical_not_180 :
  change_orientation_twice (K := nearest_kernels) two_pixels "vertical" false
  <> Val (rotate (K := nearest_kernels) two_pixels 180 true).
Proof. intros H. vm_compute in H. discriminate H. Qed.

(** ** The fingerprint *)

Lemma length_be_bytes (n : nat) (x : Z) : length (SHA256.be_bytes n x) = n.
Proof.
  revert x. induction n as [|n IH]; intros x; simpl; [reflexivity|].
  rewrite length_app, IH. simpl. lia.
Qed.

(** The digest is 256 bits long. *)
Lemma length_digest (msg : list Byte.byte) :
  length (SHA256.digest msg) = 32%nat.
Proof.
  unfold SHA256.digest.
  destruct (fold_left SHA256.compress _ SHA256.H0)
    as [[[[[[[a b] c] d] e] f] g] h].
  rewrite !length_app, !length_be_bytes. reflexivity.
Qed.

Lemma hex_length (bs : list Byte.byte) :
  String.length (SHA256.hex bs) = (2 * length bs)%nat.
Proof.
  induction bs as [|b bs IH]; simpl; [reflexivity|]. rewrite IH. lia.
Qed.

Lemma hex_digits_lower (b : Byte.byte) :
  SHA256.is_lower_hex (SHA256.hex_digit (SHA256.byte_to_Z b / 16)) = true /\
  SHA256.is_lower_hex (SHA256.hex_digit (SHA256.byte_to_Z b mod 16)) = true.
Proof. destruct b; split; vm_compute; reflexivity. Qed.

Lemma hex_lower (bs : list Byte.byte) : SHA256.all_lower_hex (SHA256.hex bs) = true.
Proof.
  induction bs as [|b bs IH]; simpl; [reflexivity|].
  destruct (hex_digits_lower b) as [Hhi Hlo]. now rewrite Hhi, Hlo, IH.
Qed.

Lemma compute_image_hash_shape (image : Image) :
  String.length (compute_image_hash image) = 64%nat /\
  SHA256.all_lower_hex (compute_image_hash image) = true.
Proof.
  unfold compute_image_hash, SHA256.hexdigest. split.
  - rewrite hex_length, length_digest. reflexivity.
  - apply hex_lower.
Qed.

(** C8: the fingerprint is a string of 64 lowercase hexadecimal digits, and
    two bitmaps with the same pixel bytes after conversion to RGB have the
    same fingerprint, whatever their modes. *)
Theorem compute_image_hash_deterministic (a b : Image) :
  tobytes (convert_RGB a) = tobytes (convert_RGB b) ->
  String.length (compute_image_hash a) = 64%nat /\
  SHA256.all_lower_hex (compute_image_hash a) = true /\
  compute_image_hash a = compute_image_hash b.
Proof.
  intros Hbytes. destruct (compute_image_hash_shape a) as [Hlen Hhex].
  repeat split; try assumption.
  unfold compute_image_hash. now rewrite Hbytes.
Qed.

Lemma compute_image_hash_deterministic_witness :
  String.length (compute_image_hash rgba_pixel) = 64%nat /\
  SHA256.all_lower_hex (compute_image_hash rgba_pixel) = true /\
  compute_image_hash rgba_pixel = compute_image_hash rgb_pixel.
Proof. apply compute_image_hash_deterministic. reflexivity. Defined.

(** The fingerprint of the bytes 01 02 03, as [hashlib] computes it. *)
Example compute_image_hash_rgba_pixel :
  compute_image_hash rgba_pixel
  = "039058c6f2c0cb492c533b0a4d14ef77cc0f78abccced5287d84a1a2011cfb81".
Proof. vm_compute. reflexivity. Qed.

Example compute_image_hash_grey :
  compute_image_hash grey_pixel
  = compute_image_hash (mkImage RGB 1 1 [[[Byte.x07; Byte.x07; Byte.x07]]]).
Proof. vm_compute. reflexivity. Qed.

(** ** Enhancement *)

Section Enhancement.

Context {K : Kernels}.

(** A factor of 1.0 gives the image itself. *)
Lemma blend_one (im1 im2 : Image) : blend im1 im2 Float64.one = im2.
Proof. reflexivity. Qed.

Lemma get_setting_absent (image_settings : gmap string Float64.float)
    (key : string) :
  image_settings !! key = None -> get_setting image_settings key = Float64.one.
Proof. intros H. unfold get_setting. now rewrite H. Qed.

(** C7, as amended: the four enhancers run in the order brightness,
    contrast, saturation, sharpness on the bitmap converted to RGB unless
    its mode is RGB or L; with the four settings absent the result is that
    bitmap, so the pixel bytes of an RGB or L bitmap are unchanged. *)
Theorem apply_image_enhancement_defaults (img : Image)
    (image_settings : gmap string Float64.float) :
  image_settings !! "brightness" = None ->
  image_settings !! "contrast" = None ->
  image_settings !! "saturation" = None ->
  image_settings !! "sharpness" = None ->
  (forall settings : gmap string Float64.float,
     apply_image_enhancement img settings
     = let converted :=
         if bool_decide (mode img = RGB) || bool_decide (mode img = L)
         then img else convert_RGB img in
       Sharpness_enhance
         (Color_enhance
            (Contrast_enhance
               (Brightness_enhance converted (get_setting settings "brightness"))
               (get_setting settings "contrast"))
            (get_setting settings "saturation"))
         (get_setting settings "sharpness")) /\
  apply_image_enhancement img image_settings
  = (if bool_decide (mode img = RGB) || bool_decide (mode img = L)
     then img else convert_RGB img) /\
  (mode img = RGB \/ mode img = L ->
   tobytes (apply_image_enhancement img image_settings) = tobytes img).
Proof.
  intros Hb Hc Hsat Hsh.
  assert (Horder : forall settings : gmap string Float64.float,
     apply_image_enhancement img settings
     = let converted :=
         if bool_decide (mode img = RGB) || bool_decide (mode img = L)
         then img else convert_RGB img in
       Sharpness_enhance
         (Color_enhance
            (Contrast_enhance
               (Brightness_enhance converted (get_setting settings "brightness"))
               (get_setting settings "contrast"))
            (get_setting settings "saturation"))
         (get_setting settings "sharpness")).
  { intros settings. unfold apply_image_enhancement.
    destruct (bool_decide (mode img = RGB) || bool_decide (mode img = L));
      reflexivity. }
  assert (Hid : apply_image_enhancement img image_settings
    = (if bool_decide (mode img = RGB) || bool_decide (mode img = L)
       then img else convert_RGB img)).
  { rewrite Horder. cbv zeta.
    rewrite !get_setting_absent by assumption.
    unfold Sharpness_enhance, Color_enhance, Contrast_enhance,
      Brightness_enhance.
    now rewrite !blend_one. }
  split; [exact Horder|]. split; [exact Hid|].
  intros Hmode. rewrite Hid.
  destruct Hmode as [Hm | Hm]; rewrite Hm; reflexivity.
Qed.

End Enhancement.

Lemma apply_image_enhancement_defaults_witness :
  apply_image_enhancement (K := nearest_kernels) rgb_pixel ∅ = rgb_pixel.
Proof.
  refine (proj1 (proj2 (apply_image_enhancement_defaults
                          (K := nearest_kernels) rgb_pixel ∅ _ _ _ _)));
    reflexivity.
Defined.

(** C7 as stated fails on a bitmap with an alpha band: the conversion to
    RGB drops the fourth byte of every pixel. *)
Lemma apply_image_enhancement_rgba_changes_bytes :
  tobytes (apply_image_enhancement (K := nearest_kernels) rgba_pixel ∅)
  <> tobytes rgba_pixel.
Proof. intros H. vm_compute in H. discriminate H. Qed.

(** ** Fetching *)

Section Fetching.

Context {E : Env}.

(** C4, as amended: a status outside [200,300) and other than 304 gives
    the absence outcome after one line is logged; a success status gives
    the decoded bitmap; nothing is caught, so an exception of the decoder
    or of the request itself reaches the caller. *)
Theorem get_image_outcomes (image_url : string) (w : World) :
  get_image image_url w
  = match requests_get image_url with
    | Raise e => (Raise e, w)
    | Val response =>
        if ((200 <=? status_code response) && (status_code response <? 300))
           || (status_code response =? 304)
        then match decode_image (content response) with
             | Val img => (Val (Some img), w)
             | Raise e => (Raise e, w)
             end
        else (Val None,
              mkWorld (fs w)
                (log w ++
                 ["Received non-200 response from " +:+ image_url +:+
                  ": status_code: " +:+ pretty (status_code response)]))
    end.
Proof.
  unfold get_image, call, bind, eval, set_local, get_local, return_,
    on_world, OS.logger_error.
  destruct (requests_get image_url) as [response | e]; [|reflexivity].
  cbn [fst snd].
  destruct (((200 <=? status_code response) && (status_code response <? 300))
            || (status_code response =? 304)).
  - destruct (decode_image (content response)); reflexivity.
  - reflexivity.
Qed.

End Fetching.

(** C4 as stated fails when the body does not decode: the decoder's
    exception is raised to the caller. *)
Lemma get_image_raises_on_undecodable_body :
  fst (get_image (E := failing_env) "http://example.org/a.png" empty_world)
  = Raise UnidentifiedImageError.
Proof. reflexivity. Qed.

(** ** Rendering *)

Ltac files_step :=
  simpl;
  rewrite ?lookup_insert_eq, ?lookup_delete_eq;
  repeat match goal with
         | H : ?m !! ?p = _ |- context [?m !! ?p] => rewrite H
         end;
  rewrite ?bool_decide_eq_true_2 by eauto;
  rewrite ?bool_decide_eq_false_2 by (intros [? ?]; discriminate).
Ltac files_run := repeat (progress files_step).

Ltac unfold_statements :=
  unfold call, try_except, bind, when, on_world, eval, set_local, get_local,
    return_, ret, OS.NamedTemporaryFile, OS.run, OS.logger_error,
    OS.path_exists, OS.path_getsize, OS.Image_open_copy, OS.read_bytes,
    OS.remove, OS.write.

Section Rendering.

Context {K : Kernels} {E : Env}.

(** C9: [take_screenshot] never raises; it returns [None] when the process
    exits non-zero, else when the output file is missing, else when it is
    empty, else when it does not decode, and a bitmap only on the path
    through all four checkpoints.  The order is the one of the
    specification: once the process has run, the first line the call logs
    names the first checkpoint that fails in that order, whatever the later
    checkpoints would find, and nothing is logged when all four pass.  No
    line names two checkpoints. *)
Theorem take_screenshot_refines_spec (target : string) (dimensions : Z * Z)
    (timeout_ms : option Z) (w : World) :
  fst (take_screenshot target dimensions timeout_ms w)
    = Val (renderTarget_spec target dimensions timeout_ms w) /\
  (forall path process files,
     mktemp ".png" (fs w) = Val path ->
     fs w !! path = None ->
     subprocess_run
       (command target path dimensions (default 10000 timeout_ms))
       (<[path := []]> (fs w)) = Val (process, files) ->
     match first_failed_checkpoint process (files !! path) with
     | Some c =>
         fst (take_screenshot target dimensions timeout_ms w) = Val None /\
         exists line rest,
           log (snd (take_screenshot target dimensions timeout_ms w))
             = log w ++ line :: rest /\
           names_checkpoint c path line
     | None =>
         (exists img,
            fst (take_screenshot target dimensions timeout_ms w)
              = Val (Some img)) /\
         log (snd (take_screenshot target dimensions timeout_ms w)) = log w
     end) /\
  (forall c1 c2 path line,
     names_checkpoint c1 path line -> names_checkpoint c2 path line ->
     c1 = c2).
Proof.
  split; [|split].
  - unfold take_screenshot, renderTarget_spec. unfold_statements. simpl.
    destruct (mktemp ".png" (fs w)) as [path | e]; [|reflexivity].
    destruct (fs w !! path) as [old |] eqn:Hold; [reflexivity|].
    simpl.
    destruct (subprocess_run _ _) as [[process files] | e]; simpl.
    2:{ files_run. reflexivity. }
    destruct (files !! path) as [data |] eqn:Hdata.
    + destruct (returncode process =? 0) eqn:Hrc; simpl.
      * files_run. destruct data as [|b data]; [reflexivity|].
        replace (Z.of_nat (length (b :: data)) =? 0) with false
          by (symmetry; apply Z.eqb_neq; simpl length; lia).
        files_run.
        destruct (decode_image (b :: data)) as [img | e]; files_run;
          reflexivity.
      * destruct (decode_utf8 (stderr process)); files_run; [|reflexivity].
        destruct (bool_decide (stdout process = [])); files_run;
          [reflexivity|].
        destruct (decode_utf8 (stdout process)); files_run; reflexivity.
    + destruct (returncode process =? 0) eqn:Hrc; simpl.
      * files_run. reflexivity.
      * destruct (decode_utf8 (stderr process)); files_run; [|reflexivity].
        destruct (bool_decide (stdout process = [])); files_run;
          [reflexivity|].
        destruct (decode_utf8 (stdout process)); files_run; reflexivity.
  - intros path process files Hmk Hfresh Hrun.
    unfold take_screenshot, first_failed_checkpoint. unfold_statements.
    simpl. rewrite Hmk, Hfresh. simpl. rewrite Hrun. simpl.
    destruct (returncode process =? 0) eqn:Hrc; simpl.
    + destruct (files !! path) as [data |] eqn:Hdata; files_run.
      * destruct data as [|b data]; files_run.
        { split; [reflexivity|]. eexists _, []. split; reflexivity. }
        replace (Z.of_nat (length (b :: data)) =? 0) with false
          by (symmetry; apply Z.eqb_neq; simpl length; lia).
        files_run.
        destruct (decode_image (b :: data)) as [img | e]; files_run.
        { split; [eexists; reflexivity | reflexivity]. }
        split; [reflexivity|]. rewrite <- ?app_assoc. simpl.
        eexists _, _. split; [reflexivity|]. eexists. reflexivity.
      * split; [reflexivity|]. eexists _, []. split; reflexivity.
    + destruct (decode_utf8 (stderr process)); files_run.
      2:{ destruct (files !! path) eqn:Hdata; files_run;
          (split; [reflexivity|]); rewrite <- ?app_assoc; simpl;
          eexists _, _; split; reflexivity. }
      destruct (bool_decide (stdout process = [])); files_run.
      { split; [reflexivity|]. rewrite <- ?app_assoc. simpl.
        eexists _, _. split; reflexivity. }
      destruct (decode_utf8 (stdout process)); files_run.
      { split; [reflexivity|]. rewrite <- ?app_assoc. simpl.
        eexists _, _. split; reflexivity. }
      destruct (files !! path) eqn:Hdata; files_run;
        (split; [reflexivity|]); rewrite <- ?app_assoc; simpl;
        eexists _, _; split; reflexivity.
  - intros c1 c2 path line H1 H2.
    destruct c1, c2; simpl in H1, H2; try reflexivity;
      repeat match goal with
             | H : exists _, _ |- _ => destruct H as [? H]
             end;
      subst line; simpl in *; discriminate.
Qed.

(** Where the temporary file goes.  On the success path and in the
    [except] handler it is removed; the three early [return None] that
    find the file on disk leave it there. *)
Lemma take_screenshot_png_left_behind (target : string) (dimensions : Z * Z)
    (timeout_ms : option Z) (w : World) (path : string)
    (process : CompletedProcess) (files : gmap string (list Byte.byte))
    (data : list Byte.byte) :
  mktemp ".png" (fs w) = Val path ->
  fs w !! path = None ->
  subprocess_run (command target path dimensions (default 10000 timeout_ms))
    (<[path := []]> (fs w)) = Val (process, files) ->
  files !! path = Some data ->
  (returncode process <> 0 /\
   (exists err, decode_utf8 (stderr process) = Val err) /\
   (exists out, decode_utf8 (stdout process) = Val out)) \/
  (returncode process = 0 /\
   (data = [] \/ exists e, decode_image data = Raise e)) ->
  fs (snd (take_screenshot target dimensions timeout_ms w)) !! path
  = Some data.
Proof.
  intros Htmp Hfresh Hrun Hdata Hfail.
  unfold take_screenshot. unfold_statements. simpl.
  rewrite Htmp, Hfresh. simpl. rewrite Hrun. simpl.
  destruct Hfail as [(Hrc & [err Herr] & [out Hout]) | (Hrc & Hbad)].
  - apply Z.eqb_neq in Hrc. rewrite Hrc, Herr. simpl.
    destruct (bool_decide (stdout process = [])); simpl;
      rewrite ?Hout; simpl; first [exact Hdata | reflexivity].
  - rewrite Hrc. files_run.
    destruct Hbad as [-> | [e He]]; [first [exact Hdata | reflexivity]|].
    destruct data as [|b data]; [first [exact Hdata | reflexivity]|].
    replace (Z.of_nat (length (b :: data)) =? 0) with false
      by (symmetry; apply Z.eqb_neq; simpl length; lia).
    files_run. rewrite He. files_run. first [exact Hdata | reflexivity].
Qed.

(** On the path through all four checkpoints the file is removed. *)
Lemma take_screenshot_png_removed_on_success (target : string)
    (dimensions : Z * Z) (timeout_ms : option Z) (w : World) (path : string)
    (process : CompletedProcess) (files : gmap string (list Byte.byte))
    (data : list Byte.byte) (img : Image) :
  mktemp ".png" (fs w) = Val path ->
  fs w !! path = None ->
  subprocess_run (command target path dimensions (default 10000 timeout_ms))
    (<[path := []]> (fs w)) = Val (process, files) ->
  returncode process = 0 ->
  files !! path = Some data ->
  data <> [] ->
  decode_image data = Val img ->
  fs (snd (take_screenshot target dimensions timeout_ms w)) !! path = None.
Proof.
  intros Htmp Hfresh Hrun Hrc Hdata Hne Himg.
  unfold take_screenshot. unfold_statements. simpl.
  rewrite Htmp, Hfresh. simpl. rewrite Hrun. simpl.
  rewrite Hrc. files_run.
  destruct data as [|b data]; [contradiction|].
  replace (Z.of_nat (length (b :: data)) =? 0) with false
    by (symmetry; apply Z.eqb_neq; simpl length; lia).
  files_run. rewrite Himg. files_run. reflexivity.
Qed.

End Rendering.

(** C1 fails on the code: when the browser exits with code 1, the call
    returns [None] and the temporary .png file is still on disk. *)
Theorem take_screenshot_leaks_png :
  let '(outcome, w) :=
    take_screenshot (E := failing_env) "https://example.org" (800, 480) None
      empty_world in
  outcome = Val None /\ fs w !! "/tmp/tmpk3x9.png" = Some [].
Proof. vm_compute. split; reflexivity. Qed.

(** ** Floating point: no overflow, no underflow on image dimensions *)

Lemma digits2_pos_size (m : positive) : digits2_pos m = Pos.size m.
Proof. induction m as [m IH | m IH |]; simpl; now rewrite ?IH. Qed.

Lemma digits2_log2 (m : positive) :
  Z.pos (digits2_pos m) = Z.log2 (Z.pos m) + 1.
Proof.
  rewrite digits2_pos_size.
  destruct m as [m | m |]; simpl; rewrite ?Pos2Z.inj_succ; lia.
Qed.

Lemma digits2_bounds (m : positive) :
  2 ^ (Z.pos (digits2_pos m) - 1) <= Z.pos m < 2 ^ Z.pos (digits2_pos m).
Proof.
  rewrite digits2_log2.
  replace (Z.log2 (Z.pos m) + 1 - 1) with (Z.log2 (Z.pos m)) by lia.
  apply Z.log2_spec. lia.
Qed.

Lemma digits2_unique (m : positive) (d : Z) :
  2 ^ (d - 1) <= Z.pos m < 2 ^ d -> Z.pos (digits2_pos m) = d.
Proof.
  intros H. rewrite digits2_log2.
  assert (0 < d).
  { destruct (Z_lt_le_dec 0 d) as [Hd | Hd]; [exact Hd|].
    exfalso. assert (2 ^ d <= 2 ^ 0) by (apply Z.pow_le_mono_r; lia).
    simpl in *. lia. }
  rewrite (Z.log2_unique (Z.pos m) (d - 1)); [lia | lia |].
  replace (Z.succ (d - 1)) with d by lia. exact H.
Qed.

Lemma shr_1_div2 (r : shr_record) :
  0 <= shr_m r -> shr_m (shr_1 r) = shr_m r / 2.
Proof.
  destruct r as [m r s]. simpl. intros Hm.
  destruct m as [| [p | p |] | p]; simpl; try lia; try reflexivity.
  - rewrite Pos2Z.inj_xI. apply (Z.div_unique _ _ _ 1); lia.
  - rewrite Pos2Z.inj_xO. apply (Z.div_unique _ _ _ 0); lia.
Qed.

Lemma pow2_xO (p : positive) : 2 ^ Z.pos p~0 = 2 ^ Z.pos p * 2 ^ Z.pos p.
Proof.
  replace (Z.pos p~0) with (Z.pos p + Z.pos p) by lia.
  apply Z.pow_add_r; lia.
Qed.

Lemma pow2_xI (p : positive) :
  2 ^ Z.pos p~1 = 2 * (2 ^ Z.pos p * 2 ^ Z.pos p).
Proof.
  replace (Z.pos p~1) with (1 + (Z.pos p + Z.pos p)) by lia.
  rewrite Z.pow_add_r, (Z.pow_add_r 2 (Z.pos p)) by lia. reflexivity.
Qed.

Lemma shr_iter_div (p : positive) (r : shr_record) :
  0 <= shr_m r ->
  shr_m (SpecFloat.iter_pos shr_1 p r) = shr_m r / 2 ^ Z.pos p.
Proof.
  revert r. induction p as [p IH | p IH |]; intros r Hr;
    simpl SpecFloat.iter_pos.
  - assert (H1 : 0 <= shr_m (shr_1 r))
      by (rewrite shr_1_div2 by lia; apply Z.div_pos; lia).
    assert (H2 : 0 <= shr_m (SpecFloat.iter_pos shr_1 p (shr_1 r)))
      by (rewrite IH by lia; apply Z.div_pos; lia).
    rewrite IH, IH, shr_1_div2 by lia.
    rewrite !Z.div_div by lia. now rewrite pow2_xI.
  - assert (H2 : 0 <= shr_m (SpecFloat.iter_pos shr_1 p r))
      by (rewrite IH by lia; apply Z.div_pos; lia).
    rewrite IH, IH by lia. rewrite Z.div_div by lia. now rewrite pow2_xO.
  - rewrite shr_1_div2 by lia. reflexivity.
Qed.

Lemma round_nearest_even_range (x : Z) (l : location) :
  x <= round_nearest_even x l <= x + 1.
Proof.
  destruct l as [|[| |]]; simpl; try lia. destruct (Z.even x); lia.
Qed.

(** Shifting a mantissa of at least 53 digits down to 53 digits. *)
Lemma shr_fexp_digits (m : positive) (e : Z) (l : location) :
  53 <= Z.pos (digits2_pos m) ->
  -1021 <= Z.pos (digits2_pos m) + e ->
  exists r,
    shr_fexp 53 1024 (Z.pos m) e l = (r, Z.pos (digits2_pos m) + e - 53) /\
    shr_m r = Z.pos m / 2 ^ (Z.pos (digits2_pos m) - 53).
Proof.
  intros Hd Hlo. unfold shr_fexp, shr, fexp, emin. cbn [Zdigits2].
  set (d := Z.pos (digits2_pos m)) in *.
  rewrite Z.max_l by lia.
  replace (d + e - 53 - e) with (d - 53) by lia.
  destruct (d - 53) as [|p|p] eqn:Hshift; try lia.
  - exists (shr_record_of_loc (Z.pos m) l). split.
    + f_equal. lia.
    + rewrite Z.pow_0_r, Z.div_1_r.
      destruct l as [|[| |]]; reflexivity.
  - eexists. split.
    + f_equal. lia.
    + rewrite shr_iter_div.
      * destruct l as [|[| |]]; reflexivity.
      * destruct l as [|[| |]]; simpl; lia.
Qed.

Lemma pow2_split (a b : Z) : 0 <= a -> 0 <= b -> 2 ^ (a + b) = 2 ^ a * 2 ^ b.
Proof. intros. apply Z.pow_add_r; lia. Qed.

Lemma shifted_mantissa_range (m : positive) :
  53 <= Z.pos (digits2_pos m) ->
  2 ^ 52 <= Z.pos m / 2 ^ (Z.pos (digits2_pos m) - 53) < 2 ^ 53.
Proof.
  intros Hd. pose proof (digits2_bounds m) as [Hlo Hhi].
  set (d := Z.pos (digits2_pos m)) in *.
  assert (Hp : 0 < 2 ^ (d - 53)) by (apply Z.pow_pos_nonneg; lia).
  split.
  - apply Z.div_le_lower_bound; [lia|].
    rewrite Z.mul_comm, <- pow2_split by lia.
    replace (52 + (d - 53)) with (d - 1) by lia. exact Hlo.
  - apply Z.div_lt_upper_bound; [lia|].
    rewrite Z.mul_comm, <- pow2_split by lia.
    replace (53 + (d - 53)) with d by lia. exact Hhi.
Qed.

(** Rounding a mantissa of at least 53 digits whose magnitude is in the
    normal range gives a normal number: no overflow, no underflow. *)
Lemma binary_round_aux_finite (s : bool) (m : positive) (e : Z)
    (l : location) :
  53 <= Z.pos (digits2_pos m) ->
  -1021 <= Z.pos (digits2_pos m) + e <= 1022 ->
  exists m' e',
    binary_round_aux 53 1024 s (Z.pos m) e l = S754_finite s m' e' /\
    Z.pos (digits2_pos m') = 53 /\
    Z.pos (digits2_pos m) + e <= 53 + e' <= Z.pos (digits2_pos m) + e + 1.
Proof.
  intros Hd Hmag. unfold binary_round_aux.
  destruct (shr_fexp_digits m e l Hd) as (r & Hr & Hm); [lia|].
  rewrite Hr. pose proof (shifted_mantissa_range m Hd) as Hrange.
  rewrite <- Hm in Hrange.
  pose proof (round_nearest_even_range (shr_m r) (loc_of_shr_record r)) as Hx.
  set (d := Z.pos (digits2_pos m)) in *.
  destruct (round_nearest_even (shr_m r) (loc_of_shr_record r))
    as [|x|x] eqn:Hround; try lia.
  destruct (Z_lt_le_dec (Z.pos x) (2 ^ 53)) as [Hlt | Hge].
  - assert (Hdx : Z.pos (digits2_pos x) = 53)
      by (apply digits2_unique; simpl (53 - 1); lia).
    destruct (shr_fexp_digits x (d + e - 53) loc_Exact) as (r2 & Hr2 & Hm2);
      [lia | lia |].
    rewrite Hr2, Hm2, Hdx. replace (53 - 53) with 0 by lia.
    rewrite Z.pow_0_r, Z.div_1_r.
    replace (53 + (d + e - 53) - 53 <=? 1024 - 53) with true
      by (symmetry; apply Z.leb_le; lia).
    exists x, (53 + (d + e - 53) - 53).
    split; [reflexivity|]. split; [exact Hdx | lia].
  - assert (Hx53 : Z.pos x = 2 ^ 53) by lia.
    assert (Hdx : Z.pos (digits2_pos x) = 54).
    { apply digits2_unique. rewrite Hx53. simpl (54 - 1).
      split; [lia|]. apply Z.pow_lt_mono_r; lia. }
    destruct (shr_fexp_digits x (d + e - 53) loc_Exact) as (r2 & Hr2 & Hm2);
      [lia | lia |].
    rewrite Hr2, Hm2, Hdx, Hx53. replace (54 - 53) with 1 by lia.
    change (2 ^ 53 / 2 ^ 1) with (Z.pos 4503599627370496).
    replace (54 + (d + e - 53) - 53 <=? 1024 - 53) with true
      by (symmetry; apply Z.leb_le; lia).
    exists 4503599627370496%positive, (54 + (d + e - 53) - 53).
    split; [reflexivity|]. split; [reflexivity | lia].
Qed.

Lemma digits2_range (m : positive) (n : Z) :
  0 <= n -> Z.pos m < 2 ^ n -> 1 <= Z.pos (digits2_pos m) <= n.
Proof.
  intros Hn Hm. pose proof (digits2_bounds m) as [Hlo _]. split; [lia|].
  assert (H : Z.pos (digits2_pos m) - 1 < n)
    by (apply (Z.pow_lt_mono_r_iff 2); lia).
  lia.
Qed.

Lemma digits2_lower (m : positive) (n : Z) :
  2 ^ n <= Z.pos m -> n < Z.pos (digits2_pos m).
Proof.
  intros Hm. pose proof (digits2_bounds m) as [_ Hhi].
  apply (Z.pow_lt_mono_r_iff 2); lia.
Qed.

(** The quotient computed by the division has 53 or 54 digits. *)
Lemma div_core_normal (m1 m2 : positive) (e1 e2 : Z) :
  Z.pos (digits2_pos m1) <= Z.pos (digits2_pos m2) + 53 ->
  -1021 <= Z.pos (digits2_pos m1) + e1 - (Z.pos (digits2_pos m2) + e2) ->
  exists q e' l,
    SFdiv_core_binary 53 1024 (Z.pos m1) e1 (Z.pos m2) e2 = (Z.pos q, e', l) /\
    53 <= Z.pos (digits2_pos q) /\
    Z.pos (digits2_pos m1) + e1 - (Z.pos (digits2_pos m2) + e2)
      <= Z.pos (digits2_pos q) + e'
      <= Z.pos (digits2_pos m1) + e1 - (Z.pos (digits2_pos m2) + e2) + 1.
Proof.
  intros Hd Hlo. unfold SFdiv_core_binary, fexp, emin. cbn [Zdigits2].
  pose proof (digits2_bounds m1) as [Hlo1 Hhi1].
  pose proof (digits2_bounds m2) as [Hlo2 Hhi2].
  set (d1 := Z.pos (digits2_pos m1)) in *.
  set (d2 := Z.pos (digits2_pos m2)) in *.
  assert (Hd1 : 1 <= d1) by (subst d1; lia).
  assert (Hd2 : 1 <= d2) by (subst d2; lia).
  rewrite Z.max_l by lia. rewrite Z.min_l by lia.
  replace (e1 - e2 - (d1 + e1 - (d2 + e2) - 53)) with (53 + d2 - d1) by lia.
  set (sh := 53 + d2 - d1) in *.
  assert (Hm' : match sh with
                | 0 => Z.pos m1
                | Z.pos _ => Z.shiftl (Z.pos m1) sh
                | Z.neg _ => 0
                end = Z.pos m1 * 2 ^ sh).
  { destruct sh as [|p|p] eqn:Hsh; try lia.
    apply Z.shiftl_mul_pow2. lia. }
  rewrite Hm'. clear Hm'.
  assert (Hsh : 0 <= sh) by (subst sh; lia).
  assert (Hlow : 2 ^ 52 * Z.pos m2 <= Z.pos m1 * 2 ^ sh).
  { transitivity (2 ^ 52 * 2 ^ d2).
    - apply Z.mul_le_mono_nonneg_l; lia.
    - rewrite <- pow2_split by lia.
      replace (52 + d2) with (d1 - 1 + sh) by (subst sh; lia).
      rewrite pow2_split by lia.
      apply Z.mul_le_mono_nonneg_r; [apply Z.pow_nonneg; lia | exact Hlo1]. }
  assert (Hupp : Z.pos m1 * 2 ^ sh < 2 ^ 54 * Z.pos m2).
  { apply Z.lt_le_trans with (2 ^ 54 * 2 ^ (d2 - 1)).
    - rewrite <- pow2_split by lia.
      replace (54 + (d2 - 1)) with (d1 + sh) by (subst sh; lia).
      rewrite pow2_split by lia.
      apply Z.mul_lt_mono_pos_r; [apply Z.pow_pos_nonneg; lia | exact Hhi1].
    - apply Z.mul_le_mono_nonneg_l; [lia | exact Hlo2]. }
  destruct (Z.div_eucl (Z.pos m1 * 2 ^ sh) (Z.pos m2)) as [q r] eqn:Hdiv.
  assert (Hq : q = Z.pos m1 * 2 ^ sh / Z.pos m2)
    by (unfold Z.div; now rewrite Hdiv).
  assert (Hq52 : 2 ^ 52 <= q)
    by (rewrite Hq; apply Z.div_le_lower_bound; lia).
  assert (Hq54 : q < 2 ^ 54)
    by (rewrite Hq; apply Z.div_lt_upper_bound; lia).
  destruct q as [|q|q]; try (simpl in Hq52; lia).
  exists q, (d1 + e1 - (d2 + e2) - 53), (new_location (Z.pos m2) r).
  split; [reflexivity|].
  pose proof (digits2_range q 54 ltac:(lia) Hq54) as Hr54.
  pose proof (digits2_lower q 52 Hq52) as Hr52.
  lia.
Qed.

(** The ratio of two dimensions below [2 ^ 31]. *)
Lemma int_truediv_normal (a b : Z) :
  0 < a < 2 ^ 31 -> 0 < b < 2 ^ 31 ->
  exists f, Float64.int_truediv a b = Val f /\ Float64.normal_pos (-30) 32 f.
Proof.
  intros Ha Hb. unfold Float64.int_truediv.
  destruct a as [|a|a]; try lia. destruct b as [|b|b]; try lia.
  cbn [Z.eqb Z.abs Z.ltb Z.compare xorb].
  pose proof (digits2_range a 31 ltac:(lia) ltac:(lia)) as Hda.
  pose proof (digits2_range b 31 ltac:(lia) ltac:(lia)) as Hdb.
  destruct (div_core_normal a b 0 0) as (q & e' & l & Hcore & Hq & Hmag);
    [lia | lia |].
  unfold Float64.prec, Float64.emax.
  change (Z.abs (Z.pos a)) with (Z.pos a).
  change (Z.abs (Z.pos b)) with (Z.pos b). rewrite Hcore.
  destruct (binary_round_aux_finite false q e' l) as (m' & e'' & Hr & Hd & He);
    [lia | lia |].
  rewrite Hr. exists (S754_finite false m' e''). split; [reflexivity|].
  exists m', e''. split; [reflexivity|]. split; [exact Hd | lia].
Qed.

Lemma digits2_iter_xO (p k : positive) :
  Z.pos (digits2_pos (Pos.iter xO p k))
  = Z.pos (digits2_pos p) + Z.pos k.
Proof.
  induction k as [|k IH] using Pos.peano_ind.
  - simpl. lia.
  - rewrite Pos.iter_succ. cbn [digits2_pos]. lia.
Qed.

(** An [int] below [2 ^ 31] as a float. *)
Lemma of_int_normal (n : Z) :
  0 < n < 2 ^ 31 ->
  exists f, Float64.of_int n = Val f /\ Float64.normal_pos 1 32 f.
Proof.
  intros Hn. unfold Float64.of_int, binary_normalize.
  destruct n as [|n|n]; try lia.
  pose proof (digits2_range n 31 ltac:(lia) ltac:(lia)) as Hdn.
  unfold binary_round, shl_align, fexp, emin, Float64.prec, Float64.emax.
  rewrite Z.max_l by lia.
  destruct (Z.pos (digits2_pos n) + 0 - 53 - 0) as [|k|k] eqn:Hk; try lia.
  pose proof (digits2_iter_xO n k) as Hdig.
  destruct (binary_round_aux_finite false (Pos.iter xO n k)
              (Z.pos (digits2_pos n) + 0 - 53) loc_Exact)
    as (m' & e' & Hr & Hd & He); [lia | lia |].
  rewrite Hr. exists (S754_finite false m' e'). split; [reflexivity|].
  exists m', e'. split; [reflexivity|]. split; [exact Hd | lia].
Qed.

Lemma normal_pos_mantissa (m : positive) :
  Z.pos (digits2_pos m) = 53 -> 2 ^ 52 <= Z.pos m < 2 ^ 53.
Proof.
  intros Hd. pose proof (digits2_bounds m) as H. rewrite Hd in H. exact H.
Qed.

(** The product of two normal numbers of moderate magnitude. *)
Lemma mul_normal (x y : Float64.float) (lx hx ly hy : Z) :
  Float64.normal_pos lx hx x -> Float64.normal_pos ly hy y ->
  -1020 <= lx + ly -> hx + hy <= 1022 ->
  Float64.normal_pos (lx + ly - 1) (hx + hy + 1) (Float64.mul x y).
Proof.
  intros (mx & ex & -> & Hdx & Hx) (my & ey & -> & Hdy & Hy) Hlo Hhi.
  unfold Float64.mul, SFmul, Float64.prec, Float64.emax. cbn [xorb].
  pose proof (normal_pos_mantissa mx Hdx) as Hmx.
  pose proof (normal_pos_mantissa my Hdy) as Hmy.
  assert (Hp : 2 ^ 104 <= Z.pos (mx * my) < 2 ^ 106).
  { rewrite Pos2Z.inj_mul.
    change (2 ^ 104) with (2 ^ 52 * 2 ^ 52).
    change (2 ^ 106) with (2 ^ 53 * 2 ^ 53). split.
    - apply Z.mul_le_mono_nonneg; lia.
    - apply Z.mul_lt_mono_nonneg; lia. }
  pose proof (digits2_range (mx * my) 106 ltac:(lia) (proj2 Hp)) as Hd106.
  pose proof (digits2_lower (mx * my) 104 (proj1 Hp)) as Hd104.
  destruct (binary_round_aux_finite false (mx * my) (ex + ey) loc_Exact)
    as (m' & e' & Hr & Hd & He); [lia | lia |].
  rewrite Hr. exists m', e'. split; [reflexivity|]. split; [exact Hd | lia].
Qed.

(** The quotient of two normal numbers of moderate magnitude. *)
Lemma truediv_normal (x y : Float64.float) (lx hx ly hy : Z) :
  Float64.normal_pos lx hx x -> Float64.normal_pos ly hy y ->
  -1021 <= lx - hy -> hx - ly <= 1020 ->
  exists f, Float64.truediv x y = Val f /\
            Float64.normal_pos (lx - hy) (hx - ly + 2) f.
Proof.
  intros (mx & ex & -> & Hdx & Hx) (my & ey & -> & Hdy & Hy) Hlo Hhi.
  unfold Float64.truediv, SFdiv, Float64.prec, Float64.emax.
  cbn [Float64.is_zero xorb].
  destruct (div_core_normal mx my ex ey) as (q & e' & l & Hcore & Hq & Hmag);
    [lia | lia |].
  rewrite Hcore.
  destruct (binary_round_aux_finite false q e' l) as (m' & e'' & Hr & Hd & He);
    [lia | lia |].
  rewrite Hr. exists (S754_finite false m' e''). split; [reflexivity|].
  exists m', e''. split; [reflexivity|]. split; [exact Hd | lia].
Qed.

(** [int(x)] of a positive finite float is a non-negative integer. *)
Lemma to_int_normal (x : Float64.float) (lo hi : Z) :
  Float64.normal_pos lo hi x -> exists n, Float64.to_int x = Val n /\ 0 <= n.
Proof.
  intros (m & e & -> & _ & _). unfold Float64.to_int.
  eexists. split; [reflexivity|].
  destruct (0 <=? e) eqn:He.
  - apply Z.leb_le in He. apply Z.mul_nonneg_nonneg; [lia|].
    apply Z.pow_nonneg. lia.
  - apply Z.div_pos; [lia|]. apply Z.pow_pos_nonneg; [lia|].
    apply Z.leb_gt in He. lia.
Qed.

(** ** Cropping and resizing *)

Section Resizing.

Context {K : Kernels}.

Lemma crop_size (im : Image) (x0 y0 x1 y1 : Z) :
  x0 <= x1 -> y0 <= y1 ->
  exists cropped,
    crop im (x0, y0, x1, y1) = Val cropped /\
    (Z.of_nat (width cropped), Z.of_nat (height cropped))
    = (x1 - x0, y1 - y0).
Proof.
  intros Hx Hy. unfold crop.
  replace (x1 <? x0) with false by (symmetry; apply Z.ltb_ge; lia).
  replace (y1 <? y0) with false by (symmetry; apply Z.ltb_ge; lia).
  eexists. split; [reflexivity|]. cbn [width height].
  rewrite !Z2Nat.id by lia. reflexivity.
Qed.

Lemma resize_size (im : Image) (w h : Z) (resample : Resampling) :
  0 < w -> 0 < h ->
  exists resized,
    resize im (w, h) resample = Val resized /\
    (Z.of_nat (width resized), Z.of_nat (height resized)) = (w, h).
Proof.
  intros Hw Hh. unfold resize.
  destruct (bool_decide _) eqn:Hsame.
  - apply bool_decide_eq_true_1 in Hsame.
    exists im. split; [reflexivity | exact Hsame].
  - replace ((w <? 1) || (h <? 1)) with false
      by (symmetry; apply orb_false_iff; split; apply Z.ltb_ge; lia).
    eexists. split; [reflexivity|]. cbn [width height].
    rewrite !Z2Nat.id by lia. reflexivity.
Qed.

(** What [resize_image] computes, step by step, on dimensions below
    [2 ^ 31]: no step raises. *)
Lemma resize_image_run (image : Image) (dw dh : Z)
    (image_settings : list string) :
  0 < Z.of_nat (width image) < 2 ^ 31 ->
  0 < Z.of_nat (height image) < 2 ^ 31 ->
  0 < dw < 2 ^ 31 -> 0 < dh < 2 ^ 31 ->
  exists img_ratio desired_ratio box cropped result,
    Float64.int_truediv (Z.of_nat (width image)) (Z.of_nat (height image))
      = Val img_ratio /\
    Float64.int_truediv dw dh = Val desired_ratio /\
    (if Float64.gt img_ratio desired_ratio
     then exists h new_width,
       Float64.of_int (Z.of_nat (height image)) = Val h /\
       Float64.to_int (Float64.mul h desired_ratio) = Val new_width /\
       0 <= new_width /\
       box = (let x_offset :=
                if bool_decide ("keep-width" ∈ image_settings) then 0
                else (Z.of_nat (width image) - new_width) / 2 in
              (x_offset, 0, x_offset + new_width, Z.of_nat (height image)))
     else exists w q new_height,
       Float64.of_int (Z.of_nat (width image)) = Val w /\
       Float64.truediv w desired_ratio = Val q /\
       Float64.to_int q = Val new_height /\
       0 <= new_height /\
       box = (let y_offset :=
                if bool_decide ("keep-width" ∈ image_settings) then 0
                else (Z.of_nat (height image) - new_height) / 2 in
              (0, y_offset, Z.of_nat (width image), y_offset + new_height))) /\
    crop image box = Val cropped /\
    resize cropped (dw, dh) LANCZOS = Val result /\
    resize_image image (dw, dh) image_settings = Val result /\
    (Z.of_nat (width result), Z.of_nat (height result)) = (dw, dh).
Proof.
  intros HW HH Hdw Hdh.
  destruct (int_truediv_normal _ _ HW HH) as (img_ratio & Hir & Nir).
  destruct (int_truediv_normal _ _ Hdw Hdh) as (desired_ratio & Hdr & Ndr).
  unfold resize_image. rewrite Hir, Hdr. cbn [rbind].
  exists img_ratio, desired_ratio.
  destruct (Float64.gt img_ratio desired_ratio) eqn:Hgt.
  - destruct (of_int_normal _ HH) as (h & Hh & Nh).
    pose proof (mul_normal _ _ _ _ _ _ Nh Ndr ltac:(lia) ltac:(lia))
      as Nmul.
    destruct (to_int_normal _ _ _ Nmul) as (new_width & Hnw & Hpos).
    rewrite Hh. cbn [rbind]. rewrite Hnw. cbn [rbind].
    set (x_offset := if negb (bool_decide ("keep-width" ∈ image_settings))
                     then (Z.of_nat (width image) - new_width) / 2 else 0).
    destruct (crop_size image x_offset 0 (x_offset + new_width)
                (0 + Z.of_nat (height image)))
      as (cropped & Hcrop & _); [lia | lia |].
    destruct (resize_size cropped dw dh LANCZOS) as (result & Hres & Hsize);
      [lia | lia |].
    exists (x_offset, 0, x_offset + new_width, Z.of_nat (height image)),
      cropped, result.
    split; [reflexivity|]. split; [reflexivity|]. split.
    { exists h, new_width. repeat split; try assumption; try lia.
      subst x_offset.
      destruct (bool_decide ("keep-width" ∈ image_settings)); reflexivity. }
    rewrite Z.add_0_l in Hcrop.
    split; [exact Hcrop|]. split; [exact Hres|].
    fold x_offset. rewrite Z.add_0_l. rewrite Hcrop. cbn [rbind].
    split; [exact Hres | exact Hsize].
  - destruct (of_int_normal _ HW) as (w & Hw & Nw).
    destruct (truediv_normal _ _ _ _ _ _ Nw Ndr ltac:(lia) ltac:(lia))
      as (q & Hq & Nq).
    destruct (to_int_normal _ _ _ Nq) as (new_height & Hnh & Hpos).
    rewrite Hw. cbn [rbind]. rewrite Hq. cbn [rbind]. rewrite Hnh.
    cbn [rbind].
    set (y_offset := if negb (bool_decide ("keep-width" ∈ image_settings))
                     then (Z.of_nat (height image) - new_height) / 2 else 0).
    destruct (crop_size image 0 y_offset (0 + Z.of_nat (width image))
                (y_offset + new_height))
      as (cropped & Hcrop & _); [lia | lia |].
    destruct (resize_size cropped dw dh LANCZOS) as (result & Hres & Hsize);
      [lia | lia |].
    exists (0, y_offset, Z.of_nat (width image), y_offset + new_height),
      cropped, result.
    split; [reflexivity|]. split; [reflexivity|]. split.
    { exists w, q, new_height. repeat split; try assumption; try lia.
      subst y_offset.
      destruct (bool_decide ("keep-width" ∈ image_settings)); reflexivity. }
    rewrite Z.add_0_l in Hcrop.
    split; [exact Hcrop|]. split; [exact Hres|].
    fold y_offset. rewrite Z.add_0_l. rewrite Hcrop. cbn [rbind].
    split; [exact Hres | exact Hsize].
Qed.

End Resizing.

Section ResizingProperties.

Context {K : Kernels}.

(** A bitmap wider than the target, without keep-width, is cropped to the
    width that [int(img_height * desired_ratio)] gives in floating point,
    centred horizontally at [(img_width - new_width) // 2], over its full
    height, and the crop is resized to exactly the target dimensions. *)
Theorem resize_image_wide_centered (image : Image) (dw dh : Z)
    (image_settings : list string) (img_ratio desired_ratio : Float64.float) :
  0 < Z.of_nat (width image) < 2 ^ 31 ->
  0 < Z.of_nat (height image) < 2 ^ 31 ->
  0 < dw < 2 ^ 31 -> 0 < dh < 2 ^ 31 ->
  Float64.int_truediv (Z.of_nat (width image)) (Z.of_nat (height image))
    = Val img_ratio ->
  Float64.int_truediv dw dh = Val desired_ratio ->
  Float64.gt img_ratio desired_ratio = true ->
  "keep-width" ∉ image_settings ->
  exists h new_width cropped result,
    Float64.of_int (Z.of_nat (height image)) = Val h /\
    Float64.to_int (Float64.mul h desired_ratio) = Val new_width /\
    crop image ((Z.of_nat (width image) - new_width) / 2, 0,
                (Z.of_nat (width image) - new_width) / 2 + new_width,
                Z.of_nat (height image)) = Val cropped /\
    (Z.of_nat (width cropped), Z.of_nat (height cropped))
      = (new_width, Z.of_nat (height image)) /\
    resize cropped (dw, dh) LANCZOS = Val result /\
    resize_image image (dw, dh) image_settings = Val result /\
    (Z.of_nat (width result), Z.of_nat (height result)) = (dw, dh).
Proof.
  intros HW HH Hdw Hdh Hir Hdr Hgt Hkeep.
  destruct (resize_image_run image dw dh image_settings HW HH Hdw Hdh)
    as (ir & dr & box & cropped & result & Hir' & Hdr' & Hbox & Hcrop & Hres
        & Hrun & Hsize).
  rewrite Hir in Hir'. rewrite Hdr in Hdr'.
  injection Hir' as <-. injection Hdr' as <-.
  rewrite Hgt in Hbox. destruct Hbox as (h & new_width & Hh & Hnw & Hpos & ->).
  rewrite bool_decide_eq_false_2 in Hcrop by exact Hkeep. cbv zeta in Hcrop.
  exists h, new_width, cropped, result.
  repeat (split; [assumption|]). split; [|repeat split; assumption].
  destruct (crop_size image ((Z.of_nat (width image) - new_width) / 2) 0
              ((Z.of_nat (width image) - new_width) / 2 + new_width)
              (Z.of_nat (height image)))
    as (c & Hc & Hcsize); [lia | lia |].
  rewrite Hcrop in Hc. injection Hc as <-. rewrite Hcsize. f_equal; lia.
Qed.



End ResizingProperties.

Section ResizingRounding.

Context {K : Kernels}.

(** C5: for a 1008x672 bitmap and the target (600, 448) the width of the
    crop is floor(672 * 600 / 448) = 900, but [resize_image] evaluates
    [int(img_height * desired_ratio)] in floating point, where the product
    falls just below 900: it crops the 899 columns x in [54, 953) and
    resizes those, one column fewer than the claim says. *)
Theorem resize_image_wide_crop_one_short :
  672 * 600 / 448 = 900 /\
  (let! img_ratio := Float64.int_truediv 1008 672 in
   let! desired_ratio := Float64.int_truediv 600 448 in
   Val (Float64.gt img_ratio desired_ratio)) = Val true /\
  (let! desired_ratio := Float64.int_truediv 600 448 in
   let! img_height := Float64.of_int 672 in
   Float64.to_int (Float64.mul img_height desired_ratio)) = Val 899 /\
  exists cropped,
    crop photo_3_2 (54, 0, 54 + 899, 672) = Val cropped /\
    (Z.of_nat (width cropped), Z.of_nat (height cropped)) = (899, 672) /\
    resize_image photo_3_2 (600, 448) []
      = resize cropped (600, 448) LANCZOS.
Proof.
  split; [reflexivity|]. split; [vm_compute; reflexivity|].
  split; [vm_compute; reflexivity|].
  assert (HW : Z.of_nat (width photo_3_2) = 1008) by reflexivity.
  assert (HH : Z.of_nat (height photo_3_2) = 672) by reflexivity.
  destruct (resize_image_run photo_3_2 600 448 [])
    as (ir & dr & box & cropped & result & Hir & Hdr & Hbox & Hcrop & Hres
        & Hrun & _);
    [rewrite HW; lia | rewrite HH; lia | lia | lia |].
  rewrite HW, HH in Hir. vm_compute in Hir. injection Hir as <-.
  vm_compute in Hdr. injection Hdr as <-.
  replace (Float64.gt _ _) with true in Hbox by (vm_compute; reflexivity).
  destruct Hbox as (h & new_width & Hh & Hnw & _ & ->).
  rewrite HH in Hh. vm_compute in Hh. injection Hh as <-.
  vm_compute in Hnw. injection Hnw as <-.
  rewrite bool_decide_eq_false_2 in Hcrop by (intros Hin; inversion Hin).
  cbv zeta in Hcrop. rewrite HW, HH in Hcrop.
  change ((1008 - 899) / 2) with 54 in Hcrop.
  exists cropped. split; [exact Hcrop|].
  split; [|rewrite Hrun, Hres; reflexivity].
  destruct (crop_size photo_3_2 54 0 (54 + 899) 672) as (c & Hc & Hcsize);
    [lia | lia |].
  rewrite Hcrop in Hc. injection Hc as <-.
  rewrite Hcsize. f_equal; lia.
Qed.

End ResizingRounding.

(** The scenario of the specification: 1920x1080 into (800, 480) crops
    x in [60, 1860) at full height and gives exactly 800x480. *)
Lemma resize_image_wide_centered_witness :
  exists cropped result,
    crop full_hd (60, 0, 1860, 1080) = Val cropped /\
    (Z.of_nat (width cropped), Z.of_nat (height cropped)) = (1800, 1080) /\
    resize_image (K := nearest_kernels) full_hd (800, 480) [] = Val result /\
    (Z.of_nat (width result), Z.of_nat (height result)) = (800, 480).
Proof.
  assert (HW : Z.of_nat (width full_hd) = 1920) by reflexivity.
  assert (HH : Z.of_nat (height full_hd) = 1080) by reflexivity.
  destruct (resize_image_wide_centered (K := nearest_kernels) full_hd 800 480 []
              (S754_finite false 8006399337547548 (-52))
              (S754_finite false 7505999378950827 (-52)))
    as (h & new_width & cropped & result & Hh & Hnw & Hcrop & Hcsize & Hres
        & Hrun & Hsize).
  - rewrite HW. lia.
  - rewrite HH. lia.
  - lia.
  - lia.
  - rewrite HW, HH. vm_compute. reflexivity.
  - vm_compute. reflexivity.
  - vm_compute. reflexivity.
  - intros Hin. inversion Hin.
  - rewrite HH in Hh. vm_compute in Hh. injection Hh as <-.
    vm_compute in Hnw. injection Hnw as <-.
    rewrite HW, HH in Hcrop. rewrite HH in Hcsize.
    exists cropped, result.
    split; [exact Hcrop|]. split; [exact Hcsize|].
    split; [exact Hrun | exact Hsize].
Defined.




(** The order on a concrete run: the browser exits with code 1 and leaves
    the screenshot file empty; the process failure is what is reported,
    though the third checkpoint would fail as well. *)
Lemma take_screenshot_refines_spec_witness :
  fst (take_screenshot (E := failing_env) "https://example.org" (800, 480)
         None empty_world) = Val None /\
  exists line rest,
    log (snd (take_screenshot (E := failing_env) "https://example.org"
                (800, 480) None empty_world))
      = log empty_world ++ line :: rest /\
    names_checkpoint ProcessSucceeded "/tmp/tmpk3x9.png" line.
Proof.
  exact (proj1 (proj2 (take_screenshot_refines_spec (E := failing_env)
                         "https://example.org" (800, 480) None empty_world))
           "/tmp/tmpk3x9.png" (mkCompletedProcess 1 [] [])
           (<["/tmp/tmpk3x9.png" := []]> ∅) eq_refl eq_refl eq_refl).
Defined.

(** ** More on rendering: the log and the other files *)

Lemma app_snoc_ne {A} (l : list A) (x : A) : l ++ [x] <> [].
Proof. destruct l; discriminate. Qed.

Ltac close_log :=
  simpl; rewrite <- ?app_assoc;
  first
    [ exists []; rewrite app_nil_r; split; [reflexivity|];
      split; [intros H; discriminate H | reflexivity]
    | eexists; split; [reflexivity|];
      split; [intros _; simpl; discriminate | intros img H; discriminate H] ].

Section RenderingLog.

Context {K : Kernels} {E : Env}.

(** [take_screenshot] only appends to the log; it appends at least one
    line whenever it returns [None], and nothing when it returns a
    bitmap. *)
Theorem take_screenshot_logs_every_absence (target : string)
    (dimensions : Z * Z) (timeout_ms : option Z) (w : World) :
  exists msgs,
    log (snd (take_screenshot target dimensions timeout_ms w))
      = log w ++ msgs /\
    (fst (take_screenshot target dimensions timeout_ms w) = Val None ->
     msgs <> []) /\
    (forall img,
       fst (take_screenshot target dimensions timeout_ms w) = Val (Some img) ->
       msgs = []).
Proof.
  unfold take_screenshot. unfold_statements. simpl.
  destruct (mktemp ".png" (fs w)) as [path | e]; [|close_log].
  destruct (fs w !! path) as [old |] eqn:Hold; [close_log|].
  simpl.
  destruct (subprocess_run _ _) as [[process files] | e]; simpl.
  2:{ files_run. close_log. }
  destruct (files !! path) as [data |] eqn:Hdata.
  - destruct (returncode process =? 0) eqn:Hrc; simpl.
    + files_run. destruct data as [|b data]; [close_log|].
      replace (Z.of_nat (length (b :: data)) =? 0) with false
        by (symmetry; apply Z.eqb_neq; simpl length; lia).
      files_run.
      destruct (decode_image (b :: data)) as [img | e]; files_run; close_log.
    + destruct (decode_utf8 (stderr process)); files_run; [|close_log].
      destruct (bool_decide (stdout process = [])); files_run; [close_log|].
      destruct (decode_utf8 (stdout process)); files_run; close_log.
  - destruct (returncode process =? 0) eqn:Hrc; simpl.
    + files_run. close_log.
    + destruct (decode_utf8 (stderr process)); files_run; [|close_log].
      destruct (bool_decide (stdout process = [])); files_run; [close_log|].
      destruct (decode_utf8 (stdout process)); files_run; close_log.
Qed.

End RenderingLog.

Section RenderingFiles.

Context {K : Kernels} {E : Env}.

(** [take_screenshot] catches every exception. *)
Lemma take_screenshot_returns (target : string) (dimensions : Z * Z)
    (timeout_ms : option Z) (w : World) :
  exists r, fst (take_screenshot target dimensions timeout_ms w) = Val r.
Proof.
  unfold take_screenshot. unfold_statements. simpl.
  destruct (mktemp ".png" (fs w)) as [path | e]; [|eexists; reflexivity].
  destruct (fs w !! path) as [old |] eqn:Hold; [eexists; reflexivity|].
  simpl.
  destruct (subprocess_run _ _) as [[process files] | e]; simpl.
  2:{ files_run. eexists; reflexivity. }
  destruct (files !! path) as [data |] eqn:Hdata.
  - destruct (returncode process =? 0) eqn:Hrc; simpl.
    + files_run. destruct data as [|b data]; [eexists; reflexivity|].
      replace (Z.of_nat (length (b :: data)) =? 0) with false
        by (symmetry; apply Z.eqb_neq; simpl length; lia).
      files_run.
      destruct (decode_image (b :: data)) as [img | e]; files_run;
        eexists; reflexivity.
    + destruct (decode_utf8 (stderr process)); files_run;
        [|eexists; reflexivity].
      destruct (bool_decide (stdout process = [])); files_run;
        [eexists; reflexivity|].
      destruct (decode_utf8 (stdout process)); files_run;
        eexists; reflexivity.
  - destruct (returncode process =? 0) eqn:Hrc; simpl.
    + files_run. eexists; reflexivity.
    + destruct (decode_utf8 (stderr process)); files_run;
        [|eexists; reflexivity].
      destruct (bool_decide (stdout process = [])); files_run;
        [eexists; reflexivity|].
      destruct (decode_utf8 (stdout process)); files_run;
        eexists; reflexivity.
Qed.

(** Whenever [take_screenshot] returns a bitmap, its temporary file is
    gone. *)
Theorem take_screenshot_bitmap_removes_png (target : string)
    (dimensions : Z * Z) (timeout_ms : option Z) (w : World) (path : string)
    (img : Image) :
  mktemp ".png" (fs w) = Val path ->
  fst (take_screenshot target dimensions timeout_ms w) = Val (Some img) ->
  fs (snd (take_screenshot target dimensions timeout_ms w)) !! path = None.
Proof.
  intros Htmp. unfold take_screenshot. unfold_statements. simpl.
  rewrite Htmp.
  destruct (fs w !! path) as [old |] eqn:Hold; [intros H; discriminate H|].
  simpl.
  destruct (subprocess_run _ _) as [[process files] | e]; simpl.
  2:{ files_run. intros H; discriminate H. }
  destruct (files !! path) as [data |] eqn:Hdata.
  - destruct (returncode process =? 0) eqn:Hrc; simpl.
    + files_run. destruct data as [|b data]; [intros H; discriminate H|].
      replace (Z.of_nat (length (b :: data)) =? 0) with false
        by (symmetry; apply Z.eqb_neq; simpl length; lia).
      files_run.
      destruct (decode_image (b :: data)) as [img' | e]; files_run;
        [intros _; reflexivity | intros H; discriminate H].
    + destruct (decode_utf8 (stderr process)); files_run;
        [|intros H; discriminate H].
      destruct (bool_decide (stdout process = [])); files_run;
        [intros H; discriminate H|].
      destruct (decode_utf8 (stdout process)); files_run;
        intros H; discriminate H.
  - destruct (returncode process =? 0) eqn:Hrc; simpl.
    + files_run. intros H; discriminate H.
    + destruct (decode_utf8 (stderr process)); files_run;
        [|intros H; discriminate H].
      destruct (bool_decide (stdout process = [])); files_run;
        [intros H; discriminate H|].
      destruct (decode_utf8 (stdout process)); files_run;
        intros H; discriminate H.
Qed.

Ltac other_file :=
  simpl; rewrite ?lookup_delete_ne by assumption; reflexivity.

(** [take_screenshot] itself creates and removes no file but its own: every
    other path holds what the browser process left there. *)
Theorem take_screenshot_touches_only_its_file (target : string)
    (dimensions : Z * Z) (timeout_ms : option Z) (w : World) (path : string)
    (process : CompletedProcess) (files : gmap string (list Byte.byte))
    (other : string) :
  mktemp ".png" (fs w) = Val path ->
  fs w !! path = None ->
  subprocess_run (command target path dimensions (default 10000 timeout_ms))
    (<[path := []]> (fs w)) = Val (process, files) ->
  other <> path ->
  fs (snd (take_screenshot target dimensions timeout_ms w)) !! other
  = files !! other.
Proof.
  intros Htmp Hfresh Hrun Hother.
  assert (Hne : path <> other) by congruence.
  unfold take_screenshot. unfold_statements. simpl.
  rewrite Htmp, Hfresh. simpl. rewrite Hrun. simpl.
  destruct (files !! path) as [data |] eqn:Hdata.
  - destruct (returncode process =? 0) eqn:Hrc; simpl.
    + files_run. destruct data as [|b data]; [other_file|].
      replace (Z.of_nat (length (b :: data)) =? 0) with false
        by (symmetry; apply Z.eqb_neq; simpl length; lia).
      files_run.
      destruct (decode_image (b :: data)) as [img' | e]; files_run;
        other_file.
    + destruct (decode_utf8 (stderr process)); files_run; [|other_file].
      destruct (bool_decide (stdout process = [])); files_run; [other_file|].
      destruct (decode_utf8 (stdout process)); files_run; other_file.
  - destruct (returncode process =? 0) eqn:Hrc; simpl.
    + files_run. other_file.
    + destruct (decode_utf8 (stderr process)); files_run; [|other_file].
      destruct (bool_decide (stdout process = [])); files_run; [other_file|].
      destruct (decode_utf8 (stdout process)); files_run; other_file.
Qed.

End RenderingFiles.

Section RenderingHtml.

Context {K : Kernels} {E : Env}.

(** [take_screenshot_html] never raises. *)
Theorem take_screenshot_html_returns (html_str : string) (dimensions : Z * Z)
    (timeout_ms : option Z) (w : World) :
  exists r, fst (take_screenshot_html html_str dimensions timeout_ms w) = Val r.
Proof.
  unfold take_screenshot_html.
  unfold call, try_except, bind, on_world, eval, set_local, get_local,
    return_, OS.NamedTemporaryFile, OS.logger_error, OS.remove, OS.write.
  cbn [fst snd].
  destruct (mktemp ".html" (fs w)) as [path | e];
    [|eexists; reflexivity].
  destruct (fs w !! path) as [old |] eqn:Hold; [eexists; reflexivity|].
  cbn [fst snd fs log].
  destruct (encode_utf8 html_str) as [data | e]; [|eexists; reflexivity].
  cbn [fst snd fs log].
  destruct (take_screenshot_returns path dimensions
              (Some (default 15000 timeout_ms))
              {| fs := <[path := data]> (<[path := []]> (fs w)); log := log w |})
    as [r Hr].
  destruct (take_screenshot path dimensions (Some (default 15000 timeout_ms)) _)
    as [r' w'] eqn:Hts.
  cbn [fst] in Hr. subst r'. cbn [fst snd fs log].
  destruct (fs w' !! path); eexists; reflexivity.
Qed.

(** When the temporary .html file could be created and the document
    encoded, [take_screenshot_html] returns what [take_screenshot] returns
    on that file with the timeout defaulting to 15000 ms, and the .html
    file is gone afterwards. *)
Theorem take_screenshot_html_delegates (html_str : string)
    (dimensions : Z * Z) (timeout_ms : option Z) (w : World)
    (path : string) (data : list Byte.byte) :
  mktemp ".html" (fs w) = Val path ->
  fs w !! path = None ->
  encode_utf8 html_str = Val data ->
  fst (take_screenshot_html html_str dimensions timeout_ms w)
  = fst (take_screenshot path dimensions (Some (default 15000 timeout_ms))
           {| fs := <[path := data]> (fs w); log := log w |}) /\
  fs (snd (take_screenshot_html html_str dimensions timeout_ms w)) !! path
  = None.
Proof.
  intros Htmp Hfresh Henc. unfold take_screenshot_html.
  unfold call, try_except, bind, on_world, eval, set_local, get_local,
    return_, OS.NamedTemporaryFile, OS.logger_error, OS.remove, OS.write.
  cbn [fst snd]. rewrite Htmp, Hfresh. cbn [fst snd fs log]. rewrite Henc.
  cbn [fst snd fs log]. rewrite insert_insert_eq.
  destruct (take_screenshot_returns path dimensions
              (Some (default 15000 timeout_ms))
              {| fs := <[path := data]> (fs w); log := log w |})
    as [r Hr].
  destruct (take_screenshot path dimensions (Some (default 15000 timeout_ms)) _)
    as [r' w'] eqn:Hts.
  cbn [fst] in Hr. subst r'. cbn [fst snd fs log].
  destruct (fs w' !! path) eqn:Hfile; cbn [fst snd fs log].
  - split; [reflexivity | apply lookup_delete_eq].
  - split; [reflexivity | exact Hfile].
Qed.

(** When the document cannot be encoded, the call logs, returns [None] and
    leaves the empty .html file it had just created. *)
Theorem take_screenshot_html_encode_failure (html_str : string)
    (dimensions : Z * Z) (timeout_ms : option Z) (w : World)
    (path : string) (e : exn) :
  mktemp ".html" (fs w) = Val path ->
  fs w !! path = None ->
  encode_utf8 html_str = Raise e ->
  take_screenshot_html html_str dimensions timeout_ms w
  = (Val None,
     {| fs := <[path := []]> (fs w);
        log := log w ++ ["Failed to take screenshot: " +:+ exn_str e] |}).
Proof.
  intros Htmp Hfresh Henc. unfold take_screenshot_html.
  unfold call, try_except, bind, on_world, eval, set_local, get_local,
    return_, OS.NamedTemporaryFile, OS.logger_error, OS.remove, OS.write.
  cbn [fst snd]. rewrite Htmp, Hfresh. cbn [fst snd fs log]. rewrite Henc.
  reflexivity.
Qed.

End RenderingHtml.

(** ** More on orientation *)

Lemma concat_zip_cons {A} (r : list A) (cols : list (list A)) :
  length r = length cols ->
  concat (zip_with cons r cols) ≡ₚ r ++ concat cols.
Proof.
  revert cols. induction r as [|x r IH]; intros [|c cols] Hlen;
    try discriminate; [reflexivity|].
  simpl in *. rewrite IH by lia.
  apply Permutation_cons; [reflexivity|].
  rewrite !app_assoc. apply Permutation_app_tail, Permutation_app_comm.
Qed.

Lemma concat_replicate_nil {A} (n : nat) : concat (replicate n (@nil A)) = [].
Proof. induction n as [|n IH]; [reflexivity | exact IH]. Qed.

(** The columns hold the cells of the rows. *)
Lemma concat_columns {A} (w h : nat) (rows : list (list A)) :
  rectangular w h rows -> concat (columns w rows) ≡ₚ concat rows.
Proof.
  intros [Hh Hw]. subst h. induction Hw as [|r rows Hr Hrows IH]; simpl.
  - now rewrite concat_replicate_nil.
  - rewrite concat_zip_cons, IH; [reflexivity|].
    destruct (columns_rectangular w (length rows) rows) as [Hl _];
      [now split|]. lia.
Qed.

Lemma concat_rev_perm {A} (rows : list (list A)) :
  concat (rev rows) ≡ₚ concat rows.
Proof.
  induction rows as [|r rows IH]; [reflexivity|].
  simpl. rewrite concat_app, IH. simpl. rewrite app_nil_r.
  apply Permutation_app_comm.
Qed.

Lemma concat_map_rev_perm {A} (rows : list (list A)) :
  concat (map (@rev A) rows) ≡ₚ concat rows.
Proof.
  induction rows as [|r rows IH]; [reflexivity|].
  simpl. rewrite IH. apply Permutation_app_tail.
  symmetry. apply Permutation_rev.
Qed.

Lemma rectangular_rev {A} (w h : nat) (rows : list (list A)) :
  rectangular w h rows -> rectangular w h (rev rows).
Proof.
  intros [Hh Hw]. split; [now rewrite length_rev|].
  now apply List.Forall_rev.
Qed.

Lemma rectangular_map_rev {A} (w h : nat) (rows : list (list A)) :
  rectangular w h rows -> rectangular w h (map (@rev A) rows).
Proof.
  intros [Hh Hw]. split; [now rewrite length_map|].
  clear Hh. induction Hw as [|r rows Hr _ IH]; simpl; constructor;
    [now rewrite length_rev | exact IH].
Qed.

Lemma transpose_shape (im : Image) (method : Transpose) :
  wf_image im ->
  wf_image (transpose im method) /\
  mode (transpose im method) = mode im /\
  (width (transpose im method), height (transpose im method))
    = (match method with
       | ROTATE_180 => (width im, height im)
       | _ => (height im, width im)
       end) /\
  concat (pixels (transpose im method)) ≡ₚ concat (pixels im).
Proof.
  intros Hwf. destruct im as [m w h rows]. unfold wf_image in *.
  simpl in Hwf.
  pose proof (columns_rectangular w h rows Hwf) as Hc.
  pose proof (concat_columns w h rows Hwf) as Hp.
  destruct method; unfold wf_image; simpl.
  - split; [now apply rectangular_rev|]. repeat split.
    now rewrite concat_rev_perm.
  - split; [now apply rectangular_rev, rectangular_map_rev|]. repeat split.
    now rewrite concat_rev_perm, concat_map_rev_perm.
  - split; [now apply rectangular_map_rev|]. repeat split.
    now rewrite concat_map_rev_perm.
Qed.

Lemma transpose_90_90 (im : Image) :
  wf_image im ->
  transpose (transpose im ROTATE_90) ROTATE_90 = transpose im ROTATE_180.
Proof.
  intros Hwf. destruct im as [m w h rows]. unfold transpose; simpl in *.
  pose proof (columns_rectangular w h rows Hwf) as Hc.
  rewrite (columns_rev h w) by exact Hc.
  rewrite (columns_columns w h) by exact Hwf. reflexivity.
Qed.

Lemma transpose_270_270 (im : Image) :
  wf_image im ->
  transpose (transpose im ROTATE_270) ROTATE_270 = transpose im ROTATE_180.
Proof.
  intros Hwf. destruct im as [m w h rows]. unfold transpose; simpl in *.
  pose proof (columns_rectangular w h rows Hwf) as Hc.
  rewrite (columns_map_rev h w) by exact Hc.
  rewrite (columns_columns w h) by exact Hwf.
  now rewrite map_rev.
Qed.

Lemma transpose_180_180 (im : Image) :
  transpose (transpose im ROTATE_180) ROTATE_180 = im.
Proof.
  destruct im as [m w h rows]. unfold transpose; simpl.
  now rewrite map_rev, rev_involutive, map_rev_rev.
Qed.

Section OrientationMore.

Context {K : Kernels}.

(** For the two orientations it knows, [change_orientation] returns a
    well-formed bitmap of the same mode, with width and height exchanged
    for 'vertical' and kept for 'horizontal', holding the same pixels in
    another arrangement. *)
Theorem change_orientation_rearranges (image : Image) (orientation : string)
    (inverted : bool) :
  wf_image image ->
  orientation = "horizontal" \/ orientation = "vertical" ->
  exists rotated,
    change_orientation image orientation inverted = Val rotated /\
    wf_image rotated /\
    mode rotated = mode image /\
    (width rotated, height rotated)
      = (if String.eqb orientation "vertical"
         then (height image, width image)
         else (width image, height image)) /\
    concat (pixels rotated) ≡ₚ concat (pixels image).
Proof.
  intros Hwf [-> | ->].
  - rewrite change_orientation_horizontal. destruct inverted.
    + exists (transpose image ROTATE_180). split; [reflexivity|].
      apply (transpose_shape image ROTATE_180 Hwf).
    + exists image. split; [reflexivity|]. repeat split; try reflexivity.
      * apply Hwf.
      * apply Hwf.
  - rewrite change_orientation_vertical. destruct inverted.
    + exists (transpose image ROTATE_270). split; [reflexivity|].
      apply (transpose_shape image ROTATE_270 Hwf).
    + exists (transpose image ROTATE_90). split; [reflexivity|].
      apply (transpose_shape image ROTATE_90 Hwf).
Qed.

(** Repeating the same call: twice 'vertical' with the same flag is a half
    turn, and twice 'horizontal' with the same flag gives the bitmap
    back. *)
Theorem change_orientation_same_call_twice (image : Image) (inverted : bool) :
  wf_image image ->
  (let! once := change_orientation image "vertical" inverted in
   change_orientation once "vertical" inverted)
    = Val (rotate image 180 true) /\
  (let! once := change_orientation image "horizontal" inverted in
   change_orientation once "horizontal" inverted)
    = Val image.
Proof.
  intros Hwf. split.
  - rewrite change_orientation_vertical. cbn [rbind].
    rewrite change_orientation_vertical.
    destruct inverted;
      [rewrite transpose_270_270 | rewrite transpose_90_90];
      try exact Hwf; reflexivity.
  - rewrite change_orientation_horizontal. cbn [rbind].
    rewrite change_orientation_horizontal.
    destruct inverted; [now rewrite transpose_180_180 | reflexivity].
Qed.

End OrientationMore.

(** ** More on the fingerprint *)

(** The fingerprint does not see the dimensions: bitmaps of one mode whose
    pixels, read row by row, form the same sequence have the same
    fingerprint, whatever their widths and heights. *)
Theorem compute_image_hash_ignores_shape (a b : Image) :
  mode a = mode b ->
  concat (pixels a) = concat (pixels b) ->
  compute_image_hash a = compute_image_hash b.
Proof.
  intros Hmode Hpix. unfold compute_image_hash. f_equal.
  assert (H : forall im : Image,
    tobytes (convert_RGB im)
    = concat (map (pixel_to_RGB (mode im)) (concat (pixels im)))).
  { intros im. unfold convert_RGB, tobytes, copy.
    destruct (mode im) eqn:Hm; cbn [pixels].
    - now rewrite concat_map.
    - now rewrite concat_map.
    - change (pixel_to_RGB RGB) with (fun p : pixel => p).
      now rewrite map_id.
    - now rewrite concat_map. }
  rewrite !H, Hmode, Hpix. reflexivity.
Qed.

(** ** More on cropping, resizing and padding *)

Lemma grid_rectangular (w h : nat) (f : nat -> nat -> pixel) :
  rectangular w h (grid w h f).
Proof.
  unfold grid. split.
  - now rewrite length_map, length_seq.
  - apply Forall_forall. intros r Hin. apply list_elem_of_In in Hin.
    apply in_map_iff in Hin. destruct Hin as (y & <- & _).
    now rewrite length_map, length_seq.
Qed.

Lemma getpixel_grid (m : Mode) (w h : nat) (f : nat -> nat -> pixel)
    (x y : nat) :
  (x < w)%nat -> (y < h)%nat ->
  getpixel (mkImage m w h (grid w h f)) (Z.of_nat x) (Z.of_nat y) = f x y.
Proof.
  intros Hx Hy. unfold getpixel, grid. cbn [pixels mode].
  replace ((0 <=? Z.of_nat x) && (0 <=? Z.of_nat y)) with true
    by (symmetry; apply andb_true_iff; split; apply Z.leb_le; lia).
  rewrite !Nat2Z.id.
  change (map (fun y0 => map (fun x0 => f x0 y0) (seq 0 w)) (seq 0 h))
    with ((fun y0 => map (fun x0 => f x0 y0) (seq 0 w)) <$> seq 0 h).
  rewrite list_lookup_fmap, lookup_seq_lt by exact Hy. cbn [fmap option_fmap option_map].
  change (map (fun x0 => f x0 (0 + y)%nat) (seq 0 w))
    with ((fun x0 => f x0 (0 + y)%nat) <$> seq 0 w).
  rewrite list_lookup_fmap, lookup_seq_lt by exact Hx. reflexivity.
Qed.

Section ResizingMore.

Context {K : Kernels}.

(** [resize_image] divides by the height of the bitmap before anything
    else: a bitmap of height 0 raises [ZeroDivisionError], whatever the
    target and the settings. *)
Theorem resize_image_zero_height_raises (image : Image) (desired_size : Z * Z)
    (image_settings : list string) :
  height image = 0%nat ->
  resize_image image desired_size image_settings = Raise ZeroDivisionError.
Proof.
  intros Hh. unfold resize_image. destruct desired_size as [dw dh].
  rewrite Hh. reflexivity.
Qed.

(** A target of height 0 raises [ZeroDivisionError] as well. *)
Theorem resize_image_zero_target_height_raises (image : Image) (dw : Z)
    (image_settings : list string) :
  0 < Z.of_nat (width image) < 2 ^ 31 ->
  0 < Z.of_nat (height image) < 2 ^ 31 ->
  resize_image image (dw, 0) image_settings = Raise ZeroDivisionError.
Proof.
  intros HW HH. unfold resize_image.
  destruct (int_truediv_normal _ _ HW HH) as (img_ratio & Hir & _).
  rewrite Hir. reflexivity.
Qed.

Lemma crop_shape (im cropped : Image) (box : Z * Z * Z * Z) :
  crop im box = Val cropped -> wf_image cropped /\ mode cropped = mode im.
Proof.
  destruct box as [[[x0 y0] x1] y1]. unfold crop.
  destruct (x1 <? x0); [discriminate|]. destruct (y1 <? y0); [discriminate|].
  intros H. injection H as <-. split; [apply grid_rectangular | reflexivity].
Qed.

Lemma resize_shape (im resized : Image) (size : Z * Z) (resample : Resampling) :
  wf_image im ->
  resize im size resample = Val resized ->
  wf_image resized /\ mode resized = mode im.
Proof.
  intros Hwf. destruct size as [w h]. unfold resize.
  destruct (bool_decide _).
  - intros H. injection H as <-. split; [exact Hwf | reflexivity].
  - destruct ((w <? 1) || (h <? 1)); [discriminate|].
    intros H. injection H as <-. split; [apply grid_rectangular | reflexivity].
Qed.

(** The bitmap [resize_image] returns is a well-formed grid of the mode of
    the input, even when the input's rows are ragged. *)
Theorem resize_image_well_formed (image : Image) (dw dh : Z)
    (image_settings : list string) :
  0 < Z.of_nat (width image) < 2 ^ 31 ->
  0 < Z.of_nat (height image) < 2 ^ 31 ->
  0 < dw < 2 ^ 31 -> 0 < dh < 2 ^ 31 ->
  exists result,
    resize_image image (dw, dh) image_settings = Val result /\
    wf_image result /\ mode result = mode image.
Proof.
  intros HW HH Hdw Hdh.
  destruct (resize_image_run image dw dh image_settings HW HH Hdw Hdh)
    as (ir & dr & box & cropped & result & _ & _ & _ & Hcrop & Hres & Hrun & _).
  exists result. split; [exact Hrun|].
  destruct (crop_shape _ _ _ Hcrop) as [Hwfc Hmc].
  destruct (resize_shape _ _ _ _ Hwfc Hres) as [Hwfr Hmr].
  split; [exact Hwfr | congruence].
Qed.

(** [pad_image_blur]: the image scaled by [ImageOps.contain] is pasted
    unchanged on the blurred cover, its left and top margins at most one
    pixel smaller than the right and bottom ones; around it the blurred
    cover shows. *)
Theorem pad_image_blur_layout (img : Image) (dw dh : Z) (x y : nat) :
  let contained := ImageOps_contain img (dw, dh) in
  let cw := Z.of_nat (width contained) in
  let ch := Z.of_nat (height contained) in
  let x0 := (dw - cw) / 2 in
  let y0 := (dh - ch) / 2 in
  Z.of_nat x < dw -> Z.of_nat y < dh ->
  0 <= (dw - cw - x0) - x0 <= 1 /\
  0 <= (dh - ch - y0) - y0 <= 1 /\
  getpixel (pad_image_blur img (dw, dh)) (Z.of_nat x) (Z.of_nat y)
  = if (x0 <=? Z.of_nat x) && (Z.of_nat x <? x0 + cw) &&
       (y0 <=? Z.of_nat y) && (Z.of_nat y <? y0 + ch)
    then getpixel contained (Z.of_nat x - x0) (Z.of_nat y - y0)
    else box_blur_px 8 (ImageOps_fit img (dw, dh)) x y.
Proof.
  intros contained cw ch x0 y0 Hx Hy.
  split; [subst x0; pose proof (Z.div_mod (dw - cw) 2 ltac:(lia));
          pose proof (Z.mod_pos_bound (dw - cw) 2 ltac:(lia)); lia|].
  split; [subst y0; pose proof (Z.div_mod (dh - ch) 2 ltac:(lia));
          pose proof (Z.mod_pos_bound (dh - ch) 2 ltac:(lia)); lia|].
  unfold pad_image_blur, paste. cbn [fst snd].
  fold contained. fold cw ch. fold x0 y0.
  cbn [filter_BoxBlur ImageOps_fit width height mode].
  assert (Hx' : (x < Z.to_nat dw)%nat) by (clear - Hx; lia).
  assert (Hy' : (y < Z.to_nat dh)%nat) by (clear - Hy; lia).
  rewrite getpixel_grid by assumption.
  assert (E1 : (0 <=? Z.of_nat x - x0) = (x0 <=? Z.of_nat x))
    by (apply eq_true_iff_eq; rewrite !Z.leb_le; lia).
  assert (E2 : (Z.of_nat x - x0 <? cw) = (Z.of_nat x <? x0 + cw))
    by (apply eq_true_iff_eq; rewrite !Z.ltb_lt; lia).
  assert (E3 : (0 <=? Z.of_nat y - y0) = (y0 <=? Z.of_nat y))
    by (apply eq_true_iff_eq; rewrite !Z.leb_le; lia).
  assert (E4 : (Z.of_nat y - y0 <? ch) = (Z.of_nat y <? y0 + ch))
    by (apply eq_true_iff_eq; rewrite !Z.ltb_lt; lia).
  rewrite E1, E2, E3, E4.
  destruct ((x0 <=? Z.of_nat x) && (Z.of_nat x <? x0 + cw) &&
            (y0 <=? Z.of_nat y) && (Z.of_nat y <? y0 + ch)); [reflexivity|].
  unfold filter_BoxBlur. apply getpixel_grid; assumption.
Qed.

End ResizingMore.

(** ** The properties above on concrete environments *)

Lemma take_screenshot_bitmap_removes_png_witness :
  fs (snd (take_screenshot (E := working_env) "https://example.org"
             (800, 480) None empty_world)) !! "/tmp/tmpk3x9.png" = None.
Proof.
  apply (take_screenshot_bitmap_removes_png (E := working_env)
           "https://example.org" (800, 480) None empty_world
           "/tmp/tmpk3x9.png" rgb_pixel);
    vm_compute; reflexivity.
Defined.

Lemma take_screenshot_png_left_behind_witness :
  fs (snd (take_screenshot (E := failing_env) "https://example.org"
             (800, 480) None empty_world)) !! "/tmp/tmpk3x9.png" = Some [].
Proof.
  apply (take_screenshot_png_left_behind (E := failing_env)
           "https://example.org" (800, 480) None empty_world
           "/tmp/tmpk3x9.png" (mkCompletedProcess 1 [] [])
           (<["/tmp/tmpk3x9.png" := []]> ∅) []).
  - reflexivity.
  - reflexivity.
  - reflexivity.
  - vm_compute. reflexivity.
  - left. split; [intros H; discriminate H|].
    split; exists ""%string; reflexivity.
Defined.

Lemma take_screenshot_touches_only_its_file_witness :
  fs (snd (take_screenshot (E := working_env) "https://example.org"
             (800, 480) None
             (mkWorld {["/home/pi/photo.png" := [Byte.x01]]} [])))
    !! "/home/pi/photo.png"
  = (<["/tmp/tmpk3x9.png" := [Byte.x89; Byte.x50]]>
       (<["/tmp/tmpk3x9.png" := []]> {["/home/pi/photo.png" := [Byte.x01]]})
     : gmap string (list Byte.byte)) !! "/home/pi/photo.png".
Proof.
  apply (take_screenshot_touches_only_its_file (E := working_env)
           "https://example.org" (800, 480) None
           (mkWorld {["/home/pi/photo.png" := [Byte.x01]]} [])
           "/tmp/tmpk3x9.png" (mkCompletedProcess 0 [] [])).
  - reflexivity.
  - vm_compute. reflexivity.
  - reflexivity.
  - intros H. discriminate H.
Defined.

Lemma take_screenshot_html_delegates_witness :
  fst (take_screenshot_html (E := working_env) "<p>hello</p>" (800, 480)
         None empty_world)
  = fst (take_screenshot (E := working_env) "/tmp/tmpk3x9.html" (800, 480)
           (Some (default 15000 None))
           {| fs := <["/tmp/tmpk3x9.html" := [Byte.x3c]]> ∅; log := [] |}) /\
  fs (snd (take_screenshot_html (E := working_env) "<p>hello</p>" (800, 480)
             None empty_world)) !! "/tmp/tmpk3x9.html" = None.
Proof.
  apply (take_screenshot_html_delegates (E := working_env) "<p>hello</p>"
           (800, 480) None empty_world "/tmp/tmpk3x9.html" [Byte.x3c]);
    reflexivity.
Defined.

Lemma take_screenshot_html_encode_failure_witness :
  take_screenshot_html (E := unencodable_env) "<p>hello</p>" (800, 480) None
    empty_world
  = (Val None,
     {| fs := <["/tmp/tmpk3x9.html" := []]> ∅;
        log := [] ++ ["Failed to take screenshot: " +:+
                      exn_str UnicodeEncodeError] |}).
Proof.
  apply (take_screenshot_html_encode_failure (E := unencodable_env)
           "<p>hello</p>" (800, 480) None empty_world "/tmp/tmpk3x9.html"
           UnicodeEncodeError);
    reflexivity.
Defined.

Lemma change_orientation_rearranges_witness :
  exists rotated,
    change_orientation (K := nearest_kernels) two_pixels "vertical" false
      = Val rotated /\
    wf_image rotated /\
    mode rotated = mode two_pixels /\
    (width rotated, height rotated)
      = (if String.eqb "vertical" "vertical"
         then (height two_pixels, width two_pixels)
         else (width two_pixels, height two_pixels)) /\
    concat (pixels rotated) ≡ₚ concat (pixels two_pixels).
Proof.
  apply (change_orientation_rearranges (K := nearest_kernels)).
  - split; [reflexivity | repeat constructor].
  - right. reflexivity.
Defined.

Lemma change_orientation_same_call_twice_witness :
  (let! once := change_orientation (K := nearest_kernels) two_pixels
                  "vertical" true in
   change_orientation (K := nearest_kernels) once "vertical" true)
    = Val (rotate (K := nearest_kernels) two_pixels 180 true) /\
  (let! once := change_orientation (K := nearest_kernels) two_pixels
                  "horizontal" true in
   change_orientation (K := nearest_kernels) once "horizontal" true)
    = Val two_pixels.
Proof.
  apply (change_orientation_same_call_twice (K := nearest_kernels)).
  split; [reflexivity | repeat constructor].
Defined.

Lemma compute_image_hash_ignores_shape_witness :
  compute_image_hash two_pixels = compute_image_hash two_pixels_stacked.
Proof. apply compute_image_hash_ignores_shape; reflexivity. Defined.

Lemma resize_image_zero_height_raises_witness :
  resize_image (K := nearest_kernels) (new RGB 5 0) (800, 480) []
  = Raise ZeroDivisionError.
Proof.
  apply (resize_image_zero_height_raises (K := nearest_kernels)). reflexivity.
Defined.

Lemma resize_image_zero_target_height_raises_witness :
  resize_image (K := nearest_kernels) two_pixels (800, 0) []
  = Raise ZeroDivisionError.
Proof.
  apply (resize_image_zero_target_height_raises (K := nearest_kernels));
    simpl; lia.
Defined.

Lemma resize_image_well_formed_witness :
  exists result,
    resize_image (K := nearest_kernels) ragged (3, 2) [] = Val result /\
    wf_image result /\ mode result = mode ragged.
Proof.
  apply (resize_image_well_formed (K := nearest_kernels)); simpl; lia.
Defined.

Lemma pad_image_blur_layout_witness :
  0 <= (4 - 2 - (4 - 2) / 2) - (4 - 2) / 2 <= 1 /\
  0 <= (4 - 1 - (4 - 1) / 2) - (4 - 1) / 2 <= 1 /\
  getpixel (pad_image_blur (K := nearest_kernels) two_pixels (4, 4))
    (Z.of_nat 1) (Z.of_nat 1)
  = if ((4 - 2) / 2 <=? Z.of_nat 1) && (Z.of_nat 1 <? (4 - 2) / 2 + 2) &&
       ((4 - 1) / 2 <=? Z.of_nat 1) && (Z.of_nat 1 <? (4 - 1) / 2 + 1)
    then getpixel two_pixels (Z.of_nat 1 - (4 - 2) / 2)
           (Z.of_nat 1 - (4 - 1) / 2)
    else box_blur_px (Kernels := nearest_kernels) 8
           (ImageOps_fit (K := nearest_kernels) two_pixels (4, 4)) 1 1.
Proof.
  apply (pad_image_blur_layout (K := nearest_kernels) two_pixels 4 4 1 1);
    simpl; lia.
Defined.

(** ** The calendar *)

Import Calendar.

Lemma days_before_year_succ (y : Z) :
  days_before_year (y + 1)
  = days_before_year y + (if is_leap y then 366 else 365).
Proof.
  unfold days_before_year, is_leap. cbv zeta.
  replace (y + 1 - 1) with y by lia.
  destruct (y mod 4 =? 0) eqn:H4; destruct (y mod 100 =? 0) eqn:H100;
    destruct (y mod 400 =? 0) eqn:H400; cbn [andb orb negb];
    rewrite ?Z.eqb_eq, ?Z.eqb_neq in *;
    Z.div_mod_to_equations; lia.
Qed.

Lemma days_before_year_mono (y1 y2 : Z) :
  y1 <= y2 -> days_before_year y1 <= days_before_year y2.
Proof.
  intros H. unfold days_before_year. cbv zeta.
  Z.div_mod_to_equations. lia.
Qed.

Lemma month_cases (m : Z) :
  1 <= m <= 12 ->
  m = 1 \/ m = 2 \/ m = 3 \/ m = 4 \/ m = 5 \/ m = 6 \/
  m = 7 \/ m = 8 \/ m = 9 \/ m = 10 \/ m = 11 \/ m = 12.
Proof. lia. Qed.

Lemma days_in_month_bounds (y m : Z) : 28 <= days_in_month y m <= 31.
Proof.
  unfold days_in_month.
  destruct (m =? 2); [destruct (is_leap y); lia|].
  destruct ((m =? 4) || (m =? 6) || (m =? 9) || (m =? 11)); lia.
Qed.

(** The days before a month and the days of the month stay within the
    year. *)
Lemma days_before_month_year (y m : Z) :
  1 <= m <= 12 ->
  0 <= days_before_month y m /\
  days_before_month y m + days_in_month y m
    <= (if is_leap y then 366 else 365).
Proof.
  intros Hm. apply month_cases in Hm.
  unfold days_before_month, days_in_month.
  repeat (destruct Hm as [-> | Hm]); try subst m;
    destruct (is_leap y); cbv -[Z.le Z.lt Z.add]; lia.
Qed.

Lemma days_before_month_next (y m1 m2 : Z) :
  1 <= m1 -> m1 < m2 -> m2 <= 12 ->
  days_before_month y m1 + days_in_month y m1 <= days_before_month y m2.
Proof.
  intros H1 H12 H2.
  assert (Hm1 : 1 <= m1 <= 12) by lia. assert (Hm2 : 1 <= m2 <= 12) by lia.
  apply month_cases in Hm1. apply month_cases in Hm2.
  unfold days_before_month, days_in_month.
  repeat (destruct Hm1 as [-> | Hm1]); try subst m1;
    repeat (destruct Hm2 as [-> | Hm2]); try subst m2;
    try lia; destruct (is_leap y); cbv -[Z.le Z.lt Z.add]; lia.
Qed.

Lemma toordinal_bounds (d : date) :
  valid_date d ->
  days_before_year (year d) < toordinal d <= days_before_year (year d + 1).
Proof.
  intros (Hy & Hm & Hd). unfold toordinal.
  rewrite days_before_year_succ.
  pose proof (days_before_month_year (year d) (month d) Hm). lia.
Qed.

(** The ordinal grows with the date. *)
Lemma toordinal_lt (a b : date) :
  valid_date a -> valid_date b ->
  date_ltb a b = true -> toordinal a < toordinal b.
Proof.
  intros Ha Hb Hlt. unfold date_ltb in Hlt.
  apply orb_true_iff in Hlt. destruct Hlt as [Hy | Hlt].
  - apply Z.ltb_lt in Hy.
    pose proof (toordinal_bounds a Ha). pose proof (toordinal_bounds b Hb).
    pose proof (days_before_year_mono (year a + 1) (year b) ltac:(lia)). lia.
  - apply andb_true_iff in Hlt. destruct Hlt as [Hy Hlt].
    apply Z.eqb_eq in Hy. unfold toordinal. rewrite Hy.
    apply orb_true_iff in Hlt. destruct Hlt as [Hm | Hlt].
    + apply Z.ltb_lt in Hm.
      destruct Ha as (_ & Ham & Had). destruct Hb as (_ & Hbm & Hbd).
      rewrite Hy in Had.
      pose proof (days_before_month_next (year b) (month a) (month b)
                    ltac:(lia) Hm ltac:(lia)). lia.
    + apply andb_true_iff in Hlt. destruct Hlt as [Hm Hd].
      apply Z.eqb_eq in Hm. apply Z.ltb_lt in Hd. rewrite Hm. lia.
Qed.

Lemma date_ltb_total (a b : date) :
  date_ltb a b = false -> date_ltb b a = false -> a = b.
Proof.
  destruct a as [ya ma da], b as [yb mb db]. unfold date_ltb. cbn.
  intros H1 H2.
  destruct (Z.ltb_spec ya yb); [discriminate|].
  destruct (Z.ltb_spec yb ya); [discriminate|].
  assert (ya = yb) by lia. subst yb. rewrite Z.eqb_refl in *. cbn in *.
  destruct (Z.ltb_spec ma mb); [discriminate|].
  destruct (Z.ltb_spec mb ma); [discriminate|].
  assert (ma = mb) by lia. subst mb. rewrite Z.eqb_refl in *. cbn in *.
  destruct (Z.ltb_spec da db); [discriminate|].
  destruct (Z.ltb_spec db da); [discriminate|].
  f_equal; lia.
Qed.

Lemma toordinal_le (a b : date) :
  valid_date a -> valid_date b ->
  date_ltb a b = false -> toordinal b <= toordinal a.
Proof.
  intros Ha Hb Hnlt. destruct (date_ltb b a) eqn:Hba.
  - pose proof (toordinal_lt b a Hb Ha Hba). lia.
  - rewrite (date_ltb_total a b Hnlt Hba). lia.
Qed.

Lemma date_new_valid (y m d : Z) (r : date) :
  date_new y m d = Val r ->
  r = mkDate y m d /\ valid_date r.
Proof.
  unfold date_new.
  destruct ((1 <=? y) && (y <=? 9999)) eqn:Hy; [|discriminate].
  destruct ((1 <=? m) && (m <=? 12)) eqn:Hm; [|discriminate].
  destruct ((1 <=? d) && (d <=? days_in_month y m)) eqn:Hd; [|discriminate].
  cbn. intros H. injection H as <-. split; [reflexivity|].
  apply andb_true_iff in Hy, Hm, Hd. unfold valid_date. cbn.
  rewrite !Z.leb_le in *. lia.
Qed.

(** ** The weather dashboard *)

Import WeatherDashboard.

Lemma days_between_sign (a b : date) :
  valid_date a -> valid_date b ->
  (0 <? days_between a b) = date_ltb b a.
Proof.
  intros Ha Hb. unfold days_between. destruct (date_ltb b a) eqn:Hlt.
  - pose proof (toordinal_lt b a Hb Ha Hlt). apply Z.ltb_lt. lia.
  - pose proof (toordinal_le b a Hb Ha Hlt). apply Z.ltb_ge. lia.
Qed.

Lemma date_ltb_irrefl (a : date) : date_ltb a a = false.
Proof.
  unfold date_ltb. rewrite !Z.ltb_irrefl, !Z.eqb_refl. reflexivity.
Qed.

Lemma days_between_zero (a b : date) :
  valid_date a -> valid_date b ->
  days_between a b = 0 <-> a = b.
Proof.
  intros Ha Hb. split.
  - intros H0. apply date_ltb_total.
    + destruct (date_ltb a b) eqn:Hlt; [|reflexivity].
      pose proof (toordinal_lt a b Ha Hb Hlt). unfold days_between in H0. lia.
    + destruct (date_ltb b a) eqn:Hlt; [|reflexivity].
      pose proof (toordinal_lt b a Hb Ha Hlt). unfold days_between in H0. lia.
  - intros ->. unfold days_between. lia.
Qed.

Lemma insert_by_Forall {A} (P : A -> Prop) (key : A -> Z) (x : A)
    (l : list A) :
  P x -> Forall P l -> Forall P (insert_by key x l).
Proof.
  intros Hx Hl. induction Hl as [|y l Hy Hl IH]; simpl.
  - repeat constructor. exact Hx.
  - destruct (key x <=? key y); repeat constructor; assumption.
Qed.

Lemma sort_by_Forall {A} (P : A -> Prop) (key : A -> Z) (l : list A) :
  Forall P l -> Forall P (sort_by key l).
Proof.
  intros Hl. induction Hl as [|x l Hx Hl IH]; simpl; [constructor|].
  apply insert_by_Forall; assumption.
Qed.

Lemma insert_by_ascending {A} (key : A -> Z) (x : A) (l : list A) :
  ascending key l -> ascending key (insert_by key x l).
Proof.
  intros Hl. induction Hl as [|y l Hy Hl IH]; simpl.
  - constructor; constructor.
  - destruct (Z.leb_spec (key x) (key y)) as [Hle | Hgt].
    + constructor; [|constructor; assumption].
      constructor; [exact Hle|].
      eapply Forall_impl; [exact Hy|]. cbn. intros z Hz. lia.
    + constructor; [|exact IH].
      apply insert_by_Forall; [lia | exact Hy].
Qed.

Lemma sort_by_ascending {A} (key : A -> Z) (l : list A) :
  ascending key (sort_by key l).
Proof.
  induction l as [|x l IH]; simpl; [constructor|].
  now apply insert_by_ascending.
Qed.

Lemma ascending_lookup {A} (key : A -> Z) (l : list A) (i j : nat) (a b : A) :
  ascending key l -> (i < j)%nat ->
  l !! i = Some a -> l !! j = Some b -> key a <= key b.
Proof.
  intros Hl. revert i j. induction Hl as [|x l Hx Hl IH]; intros i j Hij Hi Hj.
  - discriminate.
  - destruct j as [|j]; [lia|]. destruct i as [|i].
    + injection Hi as <-. cbn in Hj.
      rewrite Forall_lookup in Hx. exact (Hx j b Hj).
    + cbn in Hi, Hj. apply (IH i j); [lia | assumption | assumption].
Qed.

Section Dashboard.

Context {Lib : Library}.

Lemma strptime_valid (s format : string) (d : date) :
  strptime s format = Val d -> valid_date d.
Proof.
  unfold strptime. destruct (strptime_fields s format) as [[[y m] d'] | e];
    [|discriminate].
  cbn [rbind]. intros H. apply date_new_valid in H. apply H.
Qed.

(** What [calculate_countdown] shows follows the calendar: the label reads
    'Days Left' exactly when the date lies after today and 'Days Passed'
    otherwise, and the count is 0 on the day itself only. *)
Theorem calculate_countdown_follows_calendar
    (countdown_date_str title tz : string) (info : countdown_info) :
  valid_date (today tz) ->
  fst (calculate_countdown countdown_date_str title tz) = Some info ->
  exists countdown_date,
    strptime countdown_date_str "%Y-%m-%d" = Val countdown_date /\
    (label info = "Days Left" <->
     date_ltb (today tz) countdown_date = true) /\
    (label info = "Days Passed" <->
     date_ltb (today tz) countdown_date = false) /\
    0 <= day_count info /\
    (day_count info = 0 <-> countdown_date = today tz).
Proof.
  intros Htoday. unfold calculate_countdown.
  destruct (strptime countdown_date_str "%Y-%m-%d") as [cd | e] eqn:Hparse;
    cbn [rbind]; [|discriminate].
  destruct (localize tz cd) as [[] | e]; cbn [rbind fst]; [|discriminate].
  intros H. injection H as <-. cbn [label day_count].
  pose proof (strptime_valid _ _ _ Hparse) as Hcd.
  exists cd. split; [reflexivity|].
  rewrite (days_between_sign cd (today tz) Hcd Htoday).
  split; [|split; [|split]].
  - destruct (date_ltb (today tz) cd); split; intros H;
      try reflexivity; discriminate H.
  - destruct (date_ltb (today tz) cd); split; intros H;
      try reflexivity; discriminate H.
  - apply Z.abs_nonneg.
  - rewrite Z.abs_0_iff. apply days_between_zero; assumption.
Qed.

Lemma replace_year_valid (d r : date) (y : Z) :
  replace_year d y = Val r ->
  r = mkDate y (month d) (day d) /\ valid_date r.
Proof. apply date_new_valid. Qed.

(** An entry that [load_birthdays] appends lies between today and thirty
    days from now, and carries an age only when it is not 0. *)
Lemma birthday_of_row_upcoming (row : list (string * string))
    (current_date : date) (entry : birthday_entry) :
  valid_date current_date ->
  birthday_of_row row current_date = Val (Some entry) ->
  0 <= days_until entry <= 30 /\ age entry <> Some 0.
Proof.
  intros Htoday. unfold birthday_of_row.
  destruct (String.eqb _ "" || String.eqb _ ""); [discriminate|].
  match goal with
  | |- rbind ?parse _ = _ -> _ =>
      destruct parse as [[birth_date birth_year] | e]; [|discriminate]
  end.
  cbn [rbind].
  destruct (replace_year birth_date (year current_date)) as [nb | e] eqn:Hnb;
    [|discriminate].
  cbn [rbind]. apply replace_year_valid in Hnb. destruct Hnb as [Hnb_eq Hnb].
  assert (Hnext : forall next_birthday,
            (if date_ltb nb current_date
             then replace_year nb (year current_date + 1)
             else Val nb) = Val next_birthday ->
            0 <= days_between next_birthday current_date).
  { intros next Hnext. destruct (date_ltb nb current_date) eqn:Hlt.
    - apply replace_year_valid in Hnext. destruct Hnext as [Hnext_eq Hnext].
      assert (Hafter : date_ltb current_date next = true).
      { unfold date_ltb. rewrite Hnext_eq. cbn [year].
        replace (year current_date <? year current_date + 1) with true
          by (symmetry; apply Z.ltb_lt; lia). reflexivity. }
      pose proof (toordinal_lt _ _ Htoday Hnext Hafter).
      unfold days_between. lia.
    - injection Hnext as <-.
      pose proof (toordinal_le _ _ Hnb Htoday Hlt). unfold days_between. lia. }
  destruct (if date_ltb nb current_date
            then replace_year nb (year current_date + 1)
            else Val nb) as [next | e]; [|discriminate].
  cbn [rbind]. specialize (Hnext next eq_refl).
  destruct (Z.leb_spec (days_between next current_date) 30) as [Hle | Hgt];
    [|discriminate].
  intros H. injection H as <-. cbn [days_until age].
  split; [lia|].
  destruct birth_year as [by_ |]; [|discriminate].
  destruct (by_ =? 0); [discriminate|].
  destruct (year next - by_) as [|p|p]; discriminate.
Qed.

Lemma load_birthdays_row_invariant (P : birthday_entry -> Prop)
    (current_date : date) (raw : raw_row)
    (state : list birthday_entry * list (level * string)) :
  (forall row entry,
     birthday_of_row row current_date = Val (Some entry) -> P entry) ->
  Forall P (fst state) ->
  Forall P (fst (load_birthdays_row current_date state raw)).
Proof.
  intros HP Hstate. destruct state as [birthdays journal].
  unfold load_birthdays_row. cbn [fst] in Hstate.
  destruct (strip_items raw []) as [row | e]; [|exact Hstate].
  destruct (birthday_of_row row current_date) as [[entry |] | e] eqn:Hrow;
    cbn [fst]; try exact Hstate.
  apply Forall_app. split; [exact Hstate|].
  repeat constructor. exact (HP row entry Hrow).
Qed.

Lemma load_birthdays_rows_invariant (P : birthday_entry -> Prop)
    (current_date : date) (rows : list raw_row)
    (state : list birthday_entry * list (level * string)) :
  (forall row entry,
     birthday_of_row row current_date = Val (Some entry) -> P entry) ->
  Forall P (fst state) ->
  Forall P (fst (fold_left (load_birthdays_row current_date) rows state)).
Proof.
  intros HP. revert state. induction rows as [|raw rows IH]; intros state Hs.
  - exact Hs.
  - cbn [fold_left]. apply IH. now apply load_birthdays_row_invariant.
Qed.

(** [load_birthdays] returns at most five entries, each between today and
    thirty days from now and with an age only when it is not 0; when the
    file was read to its end they come soonest first. *)
Theorem load_birthdays_upcoming (csv_path tz : string) :
  valid_date (today tz) ->
  let birthdays := fst (load_birthdays csv_path tz) in
  (length birthdays <= 5)%nat /\
  Forall (fun entry => 0 <= days_until entry <= 30 /\ age entry <> Some 0)
    birthdays /\
  (snd (read_csv csv_path) = None ->
   forall (i j : nat) (a b : birthday_entry),
     (i < j)%nat -> birthdays !! i = Some a -> birthdays !! j = Some b ->
     days_until a <= days_until b).
Proof.
  intros Htoday. unfold load_birthdays.
  destruct (read_csv csv_path) as [rows failure].
  pose proof (load_birthdays_rows_invariant _ (today tz) rows ([], [])
                (fun row entry => birthday_of_row_upcoming row (today tz)
                                    entry Htoday)
                (List.Forall_nil _)) as Hall.
  destruct (fold_left (load_birthdays_row (today tz)) rows ([], []))
    as [birthdays journal].
  cbn [fst] in Hall. cbn [snd].
  destruct failure as [e |]; cbn [fst]; cbv zeta.
  - split; [rewrite length_take; lia|].
    split; [now apply Forall_take|]. intros H. discriminate H.
  - split; [rewrite length_take; lia|].
    split; [now apply Forall_take, sort_by_Forall|].
    intros _ i j a b Hij Hi Hj.
    apply lookup_take_Some in Hi, Hj.
    eapply (ascending_lookup days_until);
      [apply sort_by_ascending | exact Hij | apply Hi | apply Hj].
Qed.

Lemma date_new_leap_day (y : Z) :
  is_leap y = false -> exists e, date_new y 2 29 = Raise e.
Proof.
  intros Hy. unfold date_new, days_in_month. rewrite Hy. cbn.
  destruct (negb ((1 <=? y) && (y <=? 9999))); eexists; reflexivity.
Qed.

Lemma is_leap_next (y : Z) : is_leap y = true -> is_leap (y + 1) = false.
Proof.
  unfold is_leap. intros H. apply andb_true_iff in H. destruct H as [H4 _].
  apply Z.eqb_eq in H4.
  replace ((y + 1) mod 4 =? 0) with false; [reflexivity|].
  symmetry. apply Z.eqb_neq. Z.div_mod_to_equations. lia.
Qed.

(** The next occurrence of a 29 February cannot be built unless the
    current year is a leap year and the day has not passed. *)
Lemma next_birthday_leap_day {B} (current_date d : date) (y : Z)
    (k : date -> result B) :
  date_new y 2 29 = Val d ->
  is_leap (year current_date) &&
    negb (date_ltb (mkDate (year current_date) 2 29) current_date) = false ->
  exists e,
    (let! next_birthday := replace_year d (year current_date) in
     let! next_birthday :=
       (if date_ltb next_birthday current_date
        then replace_year next_birthday (year current_date + 1)
        else Val next_birthday) in
     k next_birthday) = Raise e.
Proof.
  intros Hd Hcur. apply date_new_valid in Hd.
  destruct Hd as [-> _]. unfold replace_year. cbn [month day].
  destruct (is_leap (year current_date)) eqn:Hcy.
  - cbn [andb] in Hcur. apply negb_false_iff in Hcur.
    destruct (date_new (year current_date) 2 29) as [nb | e] eqn:Hnb;
      [|eexists; reflexivity].
    cbn [rbind]. apply date_new_valid in Hnb. destruct Hnb as [-> _].
    rewrite Hcur. cbn [month day].
    destruct (date_new_leap_day _ (is_leap_next _ Hcy)) as [e He].
    rewrite He. eexists; reflexivity.
  - destruct (date_new_leap_day _ Hcy) as [e He]. rewrite He.
    eexists; reflexivity.
Qed.

(** A birthday on 29 February is listed only when the year read from the
    file and the current year are leap years and the day has not passed:
    otherwise the row is skipped with a warning. *)
Theorem load_birthdays_row_leap_day (current_date : date) (raw : raw_row)
    (row : list (string * string)) (birth_year : Z)
    (birthdays : list birthday_entry) (journal : list (level * string)) :
  strip_items raw [] = inl row ->
  let date_str := str_strip (dict_get row "date" "") in
  date_str <> "" ->
  str_strip (dict_get row "name" "") <> "" ->
  strptime_fields date_str
    (if (count_char "-" date_str + 1 =? 3)%nat then "%Y-%m-%d" else "%m-%d")
    = Val (birth_year, 2, 29) ->
  is_leap birth_year && is_leap (year current_date) &&
    negb (date_ltb (mkDate (year current_date) 2 29) current_date) = false ->
  exists e,
    load_birthdays_row current_date (birthdays, journal) raw
    = (birthdays,
       journal ++ [(WARNING, "Failed to parse birthday row: " +:+
                             repr_dict row +:+ ", error: " +:+ exn_str e)]).
Proof.
  intros Hstrip date_str Hdate Hname Hfields Hleap.
  unfold load_birthdays_row. rewrite Hstrip.
  assert (Hraise : exists e, birthday_of_row row current_date = Raise e).
  { unfold birthday_of_row. fold date_str.
    apply String.eqb_neq in Hdate, Hname. rewrite Hdate, Hname.
    cbn [orb]. unfold strptime.
    destruct (is_leap birth_year) eqn:Hby.
    - cbn [andb] in Hleap.
      destruct (count_char "-" date_str + 1 =? 3)%nat; rewrite Hfields;
        cbn [rbind];
        (destruct (date_new birth_year 2 29) as [d | e] eqn:Hd;
         [|eexists; reflexivity]); cbn [rbind].
      + eapply next_birthday_leap_day; eassumption.
      + pose proof Hd as Hd'. apply date_new_valid in Hd'.
        destruct Hd' as [-> _]. unfold replace_year at 1. cbn [month day].
        destruct (date_new (year current_date) 2 29) as [d2 | e] eqn:Hd2;
          [|eexists; reflexivity].
        cbn [rbind]. eapply next_birthday_leap_day; eassumption.
    - destruct (date_new_leap_day _ Hby) as [e He].
      destruct (count_char "-" date_str + 1 =? 3)%nat; rewrite Hfields;
        cbn [rbind]; rewrite He; eexists; reflexivity. }
  destruct Hraise as [e He]. rewrite He. exists e. reflexivity.
Qed.

End Dashboard.

(** An Open-Meteo code without a description is drawn as a clear sky; of
    the codes that have a description, only code 0 is. *)
Theorem weather_code_unknown_is_clear_sky (weather_code hour : Z) :
  (get_weather_description weather_code = "Unknown" ->
   map_weather_code_to_icon weather_code hour = "01d") /\
  (map_weather_code_to_icon weather_code hour = "01d" ->
   weather_code = 0 \/ get_weather_description weather_code = "Unknown").
Proof.
  destruct (Z.leb_spec 0 weather_code) as [Hlo | Hlo];
    [destruct (Z.leb_spec weather_code 99) as [Hhi | Hhi]|].
  - assert (Hn : exists n : nat, weather_code = Z.of_nat n /\ (n < 100)%nat)
      by (exists (Z.to_nat weather_code); lia).
    destruct Hn as (n & -> & Hn).
    do 100 (destruct n as [|n];
            [vm_compute; split; intros H;
             first [discriminate H | reflexivity
                   | left; reflexivity | right; reflexivity]|]).
    lia.
  - unfold map_weather_code_to_icon, get_weather_description, descriptions.
    cbn [existsb List.find fst snd].
    repeat match goal with
           | |- context [weather_code =? ?k] =>
               replace (weather_code =? k) with false
                 by (symmetry; apply Z.eqb_neq; lia)
           | |- context [?k =? weather_code] =>
               replace (k =? weather_code) with false
                 by (symmetry; apply Z.eqb_neq; lia)
           end.
    cbn [orb]. split; intros _; [reflexivity | right; reflexivity].
  - unfold map_weather_code_to_icon, get_weather_description, descriptions.
    cbn [existsb List.find fst snd].
    repeat match goal with
           | |- context [weather_code =? ?k] =>
               replace (weather_code =? k) with false
                 by (symmetry; apply Z.eqb_neq; lia)
           | |- context [?k =? weather_code] =>
               replace (k =? weather_code) with false
                 by (symmetry; apply Z.eqb_neq; lia)
           end.
    cbn [orb]. split; intros _; [reflexivity | right; reflexivity].
Qed.

(** ** The dashboard properties on a concrete library *)

Lemma calculate_countdown_follows_calendar_witness :
  exists countdown_date,
    strptime (Lib := november_library) "2026-12-25" "%Y-%m-%d"
      = Val countdown_date /\
    ("Days Left" = "Days Left" <->
     date_ltb (mkDate 2026 11 4) countdown_date = true) /\
    ("Days Left" = "Days Passed" <->
     date_ltb (mkDate 2026 11 4) countdown_date = false) /\
    0 <= 51 /\
    (51 = 0 <-> countdown_date = mkDate 2026 11 4).
Proof.
  apply (calculate_countdown_follows_calendar (Lib := november_library)
           "2026-12-25" "Christmas" "Europe/Paris"
           (mkCountdown "Christmas" "25" 51 "Days Left")).
  - repeat split; vm_compute; intros H; discriminate H.
  - reflexivity.
Defined.

Lemma load_birthdays_upcoming_witness :
  let birthdays := fst (load_birthdays (Lib := november_library)
                          "birthdays.csv" "Europe/Paris") in
  (length birthdays <= 5)%nat /\
  Forall (fun entry => 0 <= days_until entry <= 30 /\ age entry <> Some 0)
    birthdays /\
  (snd (read_csv (Library := november_library) "birthdays.csv") = None ->
   forall (i j : nat) (a b : birthday_entry),
     (i < j)%nat -> birthdays !! i = Some a -> birthdays !! j = Some b ->
     days_until a <= days_until b).
Proof.
  apply (load_birthdays_upcoming (Lib := november_library)
           "birthdays.csv" "Europe/Paris").
  repeat split; vm_compute; intros H; discriminate H.
Defined.

Lemma load_birthdays_row_leap_day_witness :
  exists e,
    load_birthdays_row (Lib := november_library) (mkDate 2026 11 4) ([], [])
      [(Some "name", Some "Ada"); (Some "date", Some "02-29")]
    = ([], [] ++ [(WARNING, "Failed to parse birthday row: " +:+ "{}" +:+
                            ", error: " +:+ exn_str e)]).
Proof.
  apply (load_birthdays_row_leap_day (Lib := november_library)
           (mkDate 2026 11 4)
           [(Some "name", Some "Ada"); (Some "date", Some "02-29")]
           [("name", "Ada"); ("date", "02-29")] 1900 [] []).
  - reflexivity.
  - intros H. discriminate H.
  - intros H. discriminate H.
  - reflexivity.
  - reflexivity.
Defined.
